(** * ACS Edge: the device-translation engine

    A shallow embedding of the metric store and codec helpers
    ([lib/helpers/typeHandler.js]), the configuration rehasher
    ([utils/FormatConfig.ts]) and the [Device] class ([lib/device.js]),
    followed by the properties of the specification that concern them. *)

From Stdlib Require Import ZArith.
From Stdlib.Strings Require Import String Ascii Byte.
From stdpp Require Import base option list gmap strings fin_maps pretty.

Local Open Scope string_scope.
Local Open Scope list_scope.

(** ** JavaScript values *)

Module Js.

(** Numbers: the integer-valued doubles, the negative zero and NaN;
    [Fin 0] is the positive zero.  Fractions and infinities are left
    out. *)
Inductive number : Type :=
| Fin (z : Z)
| NegZero
| NaN.

(** Objects are records of named fields, kept in one canonical order;
    arrays are lists of elements.  A [Long] is the 64-bit integer object
    of long.js, as a Sparkplug payload carries it. *)
Inductive value : Type :=
| Undefined
| Null
| Bool (b : bool)
| Num (n : number)
| BigInt (z : Z)
| Str (s : string)
| Long (z : Z)
| Obj (o : props)
| Arr (a : elems)
with props : Type :=
| PNil
| PCons (k : string) (v : value) (rest : props)
with elems : Type :=
| ENil
| ECons (v : value) (rest : elems).

#[global] Instance number_eq_dec : EqDecision number.
Proof. solve_decision. Defined.

Fixpoint value_eq_dec (x y : value) : {x = y} + {x <> y}
with props_eq_dec (x y : props) : {x = y} + {x <> y}
with elems_eq_dec (x y : elems) : {x = y} + {x <> y}.
Proof.
  - decide equality;
      first [ apply String.string_dec | apply Z.eq_dec | apply number_eq_dec
            | apply Bool.bool_dec ].
  - decide equality; apply String.string_dec.
  - decide equality.
Defined.

#[global] Instance value_eq_decision : EqDecision value := value_eq_dec.

(** What cuts a call short: a TypeError or a RangeError that is thrown.
    [Outside] is no error of JavaScript: it marks a call that leaves the
    metrics for an object of the runtime, a built-in function found
    through [Object.prototype], where this development does not follow
    it. *)
Inductive error : Type :=
| TypeError
| RangeError
| Outside.

(** [typeof v] *)
Definition typeof (v : value) : string :=
  match v with
  | Undefined => "undefined"
  | Null => "object"
  | Bool _ => "boolean"
  | Num _ => "number"
  | BigInt _ => "bigint"
  | Str _ => "string"
  | Long _ => "object"
  | Obj _ => "object"
  | Arr _ => "object"
  end.

(** ToBoolean *)
Definition truthy (v : value) : bool :=
  match v with
  | Undefined | Null => false
  | Bool b => b
  | Num (Fin z) => negb (z =? 0)%Z
  | Num NegZero => false
  | Num NaN => false
  | BigInt z => negb (z =? 0)%Z
  | Str s => negb (String.eqb s "")
  | Long _ => true
  | Obj _ => true
  | Arr _ => true
  end.

(** [v == 0].  Every call site evaluates it behind [v || ...], that is
    on a falsy [v] only; of the strings that leaves the empty one, whose
    numeric value is 0, and it leaves no object and no array. *)
Definition loose_eq_zero (v : value) : bool :=
  match v with
  | Undefined | Null => false
  | Bool b => negb b
  | Num (Fin z) => (z =? 0)%Z
  | Num NegZero => true
  | Num NaN => false
  | BigInt z => (z =? 0)%Z
  | Str s => String.eqb s ""
  | Long _ => false
  | Obj _ => false
  | Arr _ => false
  end.

(** [a === b]: the two zeros are equal, NaN equals nothing.  Two objects
    are compared by reference, which this value model does not carry:
    the case answers [false], and no call site reaches it. *)
Definition strict_eq (a b : value) : bool :=
  match a, b with
  | Undefined, Undefined => true
  | Null, Null => true
  | Bool x, Bool y => Bool.eqb x y
  | Num (Fin x), Num (Fin y) => (x =? y)%Z
  | Num (Fin x), Num NegZero => (x =? 0)%Z
  | Num NegZero, Num (Fin y) => (y =? 0)%Z
  | Num NegZero, Num NegZero => true
  | BigInt x, BigInt y => (x =? y)%Z
  | Str x, Str y => String.eqb x y
  | _, _ => false
  end.

(** [util.isDeepStrictEqual a b]: [Object.is] on primitives, so that
    NaN equals itself and the two zeros differ; field by field on
    objects, element by element on arrays, and an array equals no
    object. *)
Definition isDeepStrictEqual (a b : value) : bool := bool_decide (a = b).

(** ToPropertyKey, for a value used as the key of an object.  An array
    gives its elements joined by commas, null and undefined among them
    as the empty string. *)
Fixpoint to_key (v : value) : string :=
  match v with
  | Undefined => "undefined"
  | Null => "null"
  | Bool true => "true"
  | Bool false => "false"
  | Num (Fin z) => pretty z
  | Num NegZero => "0"
  | Num NaN => "NaN"
  | BigInt z => pretty z
  | Str s => s
  | Long z => pretty z
  | Obj _ => "[object Object]"
  | Arr a => join a
  end
with join (a : elems) : string :=
  match a with
  | ENil => ""
  | ECons v rest =>
      let item :=
        match v with
        | Undefined | Null => ""
        | _ => to_key v
        end in
      match rest with
      | ENil => item
      | ECons _ _ => item +:+ "," +:+ join rest
      end
  end.

End Js.

(** ** Results of code that may throw *)

Inductive Res (A : Type) : Type :=
| Ok (a : A)
| Throw (e : Js.error).
Arguments Ok {A} a.
Arguments Throw {A} e.

#[global] Instance Res_ret : MRet Res := fun A a => Ok a.
#[global] Instance Res_bind : MBind Res := fun A B f r =>
  match r with
  | Ok a => f a
  | Throw e => Throw e
  end.

(** ** typeHandler.js: metrics and the metric store *)

Module typeHandler.

(** [byteOrder] *)
Definition littleEndian : Z := 1234.
Definition bigEndian : Z := 4321.
Definition PDPEndian : Z := 3412.

(** A property of a metric, [{value, type}]. *)
Record Property : Type := mkProperty {
  pvalue : Js.value;
  ptype : string;
}.

(** A Sparkplug metric.  [None] stands for a field the object does not
    have; [properties] is the open bag of named properties. *)
Record Metric : Type := mkMetric {
  name : option string;
  alias : option Z;
  type : string;
  value : Js.value;
  timestamp : Js.value;
  isNull : option bool;
  isTransient : option bool;
  properties : option (gmap string Property);
}.

Definition with_value (v : Js.value) (m : Metric) : Metric :=
  mkMetric (name m) (alias m) (type m) v (timestamp m) (isNull m)
           (isTransient m) (properties m).

Definition with_timestamp (t : Js.value) (m : Metric) : Metric :=
  mkMetric (name m) (alias m) (type m) (value m) t (isNull m)
           (isTransient m) (properties m).

Definition with_isNull (b : bool) (m : Metric) : Metric :=
  mkMetric (name m) (alias m) (type m) (value m) (timestamp m) (Some b)
           (isTransient m) (properties m).

Definition with_alias (a : Z) (m : Metric) : Metric :=
  mkMetric (name m) (Some a) (type m) (value m) (timestamp m) (isNull m)
           (isTransient m) (properties m).

(** [class Metrics]: the ordered array and its four indices. *)
Record Metrics : Type := mkMetrics {
  array : list Metric;
  addrIndex : gmap string (list nat);
  addrPathIndex : gmap string (gmap string nat);
  nameIndex : gmap string nat;
  aliasIndex : gmap Z nat;
}.

Definition with_array (a : list Metric) (s : Metrics) : Metrics :=
  mkMetrics a (addrIndex s) (addrPathIndex s) (nameIndex s) (aliasIndex s).

(** [s.search(/^GET/g) > -1] on a string [s] *)
Definition starts_with_GET (s : string) : bool :=
  match s with
  | String "G" (String "E" (String "T" _)) => true
  | _ => false
  end.

(** [props.method.value.search(/^GET/g) > -1]: a TypeError when the bag
    has no [method], or when its value is not a string. *)
Definition method_is_GET (props : gmap string Property) : Res bool :=
  match props !! "method" with
  | Some p =>
      match pvalue p with
      | Js.Str s => Ok (starts_with_GET s)
      | _ => Throw Js.TypeError
      end
  | None => Throw Js.TypeError
  end.

(** *** Index objects

    The indices are objects made by [{}]: a key they do not hold
    themselves is looked up in [Object.prototype], which answers for
    these twelve names. *)
Definition Object_prototype : list string :=
  [ "constructor"; "__defineGetter__"; "__defineSetter__"; "hasOwnProperty";
    "__lookupGetter__"; "__lookupSetter__"; "isPrototypeOf";
    "propertyIsEnumerable"; "toString"; "valueOf"; "__proto__";
    "toLocaleString" ].

(** What [o[k]] finds: a value the object holds, the member of
    [Object.prototype] named [k] (a built-in function, or the prototype
    itself for [__proto__]), or nothing. *)
Inductive Member (V : Type) : Type :=
| Own (v : V)
| Inherited (k : string)
| Absent.
Arguments Own {V} v.
Arguments Inherited {V} k.
Arguments Absent {V}.

Definition member {V : Type} (o : gmap string V) (k : string) : Member V :=
  match o !! k with
  | Some v => Own v
  | None => if bool_decide (k ∈ Object_prototype) then Inherited k else Absent
  end.

(** [o[k] = v] for a number [v]: the setter of [__proto__] ignores a
    value that is no object, unless the object holds the key itself. *)
Definition put {V : Type} (k : string) (v : V) (o : gmap string V)
  : gmap string V :=
  match o !! k with
  | Some _ => <[k := v]> o
  | None => if String.eqb k "__proto__" then o else <[k := v]> o
  end.

(** [this.#array[x]] for what an index of positions gave: only a
    position it holds itself names an element; a built-in function and
    [undefined] name none. *)
Definition position (x : Member nat) : option nat :=
  match x with
  | Own i => Some i
  | Inherited _ | Absent => None
  end.

(** [Object.prototype[k].length]: the number of parameters of the
    built-in function; the prototype itself has no length. *)
Definition inherited_length (k : string) : option nat :=
  if String.eqb k "constructor" then Some 1
  else if bool_decide (k ∈ ["__defineGetter__"; "__defineSetter__"]) then Some 2
  else if bool_decide (k ∈ ["hasOwnProperty"; "__lookupGetter__";
                            "__lookupSetter__"; "isPrototypeOf";
                            "propertyIsEnumerable"]) then Some 1
  else if bool_decide (k ∈ ["toString"; "valueOf"; "toLocaleString"])
  then Some 0
  else None.

(** [Object.prototype[k][path]], as an index of the array.  On a
    built-in function [length] is a number, [caller] and [arguments]
    throw, and [name] is a string: [Object] for the constructor, which
    names no element, and for every other function its own name, under
    which the array finds a built-in function again.  Whatever else is
    found is no number and no name of a member of an array. *)
Definition inherited_member (k path : string) : Res (option nat) :=
  if String.eqb k "__proto__" then Ok None
  else if String.eqb path "length" then Ok (inherited_length k)
  else if String.eqb path "caller" || String.eqb path "arguments"
  then Throw Js.TypeError
  else if String.eqb path "name" && negb (String.eqb k "constructor")
  then Throw Js.Outside
  else Ok None.

(** One turn of the loop of [#buildIndices], for the metric at [i].  A
    built-in function found under the address is truthy and has no
    [push]; assigning to a member of it is not followed. *)
Definition indexMetric (i : nat) (metric : Metric) (s : Metrics) : Res Metrics :=
  let names := put (default "" (name metric)) i (nameIndex s) in
  match properties metric with
  | Some props =>
      match props !! "address", props !! "path" with
      | Some address, Some path =>
          isGet ← method_is_GET props;
          if isGet : bool then
            let addr := Js.to_key (pvalue address) in
            pushed ← match member (addrIndex s) addr with
                     | Own l => Ok (l ++ [i; i])
                     | Absent => Ok [i; i]
                     | Inherited _ => Throw Js.TypeError
                     end;
            paths ← match member (addrPathIndex s) addr with
                    | Own paths => Ok paths
                    | Absent => Ok ∅
                    | Inherited _ => Throw Js.Outside
                    end;
            Ok (mkMetrics (array s)
                          (<[addr := pushed]> (addrIndex s))
                          (<[addr := put (Js.to_key (pvalue path)) i paths]>
                             (addrPathIndex s))
                          names (aliasIndex s))
          else
            Ok (mkMetrics (array s) (addrIndex s) (addrPathIndex s) names
                          (aliasIndex s))
      | _, _ =>
          Ok (mkMetrics (array s) (addrIndex s) (addrPathIndex s) names
                        (aliasIndex s))
      end
  | None =>
      Ok (mkMetrics (array s) (addrIndex s) (addrPathIndex s) names
                    (aliasIndex s))
  end.

Fixpoint buildIndices_from (i : nat) (rest : list Metric) (s : Metrics)
  : Res Metrics :=
  match rest with
  | [] => Ok s
  | metric :: rest' => s' ← indexMetric i metric s; buildIndices_from (S i) rest' s'
  end.

(** [#buildIndices()]: the indices are extended, never cleared. *)
Definition buildIndices (s : Metrics) : Res Metrics :=
  buildIndices_from 0 (array s) s.

(** [new Metrics(metricArr)] *)
Definition new_Metrics (metricArr : list Metric) : Res Metrics :=
  buildIndices (mkMetrics metricArr ∅ ∅ ∅ ∅).

(** [add(metrics)] *)
Definition add (metrics : list Metric) (s : Metrics) : Res Metrics :=
  buildIndices (with_array (array s ++ metrics) s).

(** [this.#array[idx]] where [idx] came out of an index: [None] is
    [undefined], whatever made it so. *)
Definition at_index (s : Metrics) (idx : option nat) : option Metric :=
  i ← idx; array s !! i.

(** [this.#array[idx].field = x]: a TypeError on [undefined]. *)
Definition assign (idx : option nat) (f : Metric -> Metric) (s : Metrics)
  : Res Metrics :=
  match idx with
  | Some i =>
      match array s !! i with
      | Some m => Ok (with_array (<[i := f m]> (array s)) s)
      | None => Throw Js.TypeError
      end
  | None => Throw Js.TypeError
  end.

(** [timestamp || Date.now()] *)
Definition timestamp_or_now (timestamp : Js.value) (now : Z) : Js.value :=
  if Js.truthy timestamp then timestamp else Js.Num (Js.Fin now).

(** The three assignments and the return shared by the four setters,
    with the index expression evaluated afresh for each. *)
Definition set_at (idx : Metrics -> Res (option nat)) (value : Js.value)
    (timestamp : Js.value) (now : Z) (s : Metrics)
  : Res (option Metric * Metrics) :=
  i1 ← idx s; s1 ← assign i1 (with_value value) s;
  i2 ← idx s1; s2 ← assign i2 (with_timestamp (timestamp_or_now timestamp now)) s1;
  i3 ← idx s2; s3 ← assign i3 (with_isNull (Js.strict_eq value Js.Null)) s2;
  i4 ← idx s3; Ok (at_index s3 i4, s3).

(** [setAlias(index, alias)] *)
Definition setAlias (index : nat) (alias : Z) (s : Metrics) : Res Metrics :=
  s1 ← assign (Some index) (with_alias alias) s;
  Ok (mkMetrics (array s1) (addrIndex s1) (addrPathIndex s1) (nameIndex s1)
                (<[alias := index]> (aliasIndex s1))).

Definition getByName (name : string) (s : Metrics) : Res (option Metric) :=
  Ok (at_index s (position (member (nameIndex s) name))).

Definition setValueByName (name : string) (value timestamp : Js.value)
    (now : Z) (s : Metrics) : Res (option Metric * Metrics) :=
  set_at (fun s => Ok (position (member (nameIndex s) name))) value timestamp
    now s.

Definition setValueByIndex (index : nat) (value timestamp : Js.value)
    (now : Z) (s : Metrics) : Res (option Metric * Metrics) :=
  set_at (fun _ => Ok (Some index)) value timestamp now s.

(** An alias is a number, and no number names a member of
    [Object.prototype]. *)
Definition getByAlias (alias : Z) (s : Metrics) : Res (option Metric) :=
  Ok (at_index s (aliasIndex s !! alias)).

Definition setValueByAlias (alias : Z) (value timestamp : Js.value)
    (now : Z) (s : Metrics) : Res (option Metric * Metrics) :=
  set_at (fun s => Ok (aliasIndex s !! alias)) value timestamp now s.

(** [this.#addrIndex[addr].map(...)]: a TypeError off the index, since
    neither [undefined] nor a built-in function has a [map]. *)
Definition getByAddress (addr : string) (s : Metrics)
  : Res (list (option Metric)) :=
  match member (addrIndex s) addr with
  | Own l => Ok (map (fun x => array s !! x) l)
  | Inherited _ | Absent => Throw Js.TypeError
  end.

(** [this.#addrPathIndex[addr][path]], as an index of the array. *)
Definition addrPath_lookup (addr path : string) (s : Metrics)
  : Res (option nat) :=
  match member (addrPathIndex s) addr with
  | Own paths => Ok (position (member paths path))
  | Inherited k => inherited_member k path
  | Absent => Throw Js.TypeError
  end.

Definition getByAddrPath (addr path : string) (s : Metrics)
  : Res (option Metric) :=
  i ← addrPath_lookup addr path s; Ok (at_index s i).

Definition setValueByAddrPath (addr path : string) (value timestamp : Js.value)
    (now : Z) (s : Metrics) : Res (option Metric * Metrics) :=
  set_at (addrPath_lookup addr path) value timestamp now s.

(** [Object.keys] of a map; the order is that of the map. *)
Definition keys {K : Type} `{Countable K} {V : Type} (m : gmap K V) : list K :=
  (map_to_list m).*1.

(** [get addresses()] *)
Definition addresses (s : Metrics) : list string := keys (addrPathIndex s).

(** [getPathsForAddr(addr)]: a built-in function has no key that
    [Object.keys] lists. *)
Definition getPathsForAddr (addr : string) (s : Metrics) : list string :=
  match member (addrPathIndex s) addr with
  | Own paths => keys paths
  | Inherited _ | Absent => []
  end.

(** *** Fixed-layout buffers *)

(** What Node's [Buffer] computes outside the integers: the IEEE-754
    readers on the bytes handed to them in big-endian order, the rounding
    of [Number(bigint)], and the UTF-8 decoder. *)
Class BufferPrims : Type := {
  ieee754_single : list byte -> Js.value;
  ieee754_double : list byte -> Js.value;
  Number_of_bigint : Z -> Js.number;
  utf8_toString : list byte -> string;
}.

Definition byte_val (b : byte) : Z := Z.of_N (Byte.to_N b).

(** The unsigned integer whose big-endian bytes are [bs]. *)
Definition be_uint (bs : list byte) : Z :=
  fold_left (fun acc b => (acc * 256 + byte_val b)%Z) bs 0%Z.

(** Two's complement reading of a [w]-bit unsigned integer. *)
Definition to_signed (w : Z) (z : Z) : Z :=
  if (z <? 2 ^ (w - 1))%Z then z else (z - 2 ^ w)%Z.

(** The [n] bytes at [offset]; Node raises a RangeError past the end. *)
Definition bytes_at (buf : list byte) (offset n : nat) : Res (list byte) :=
  if decide (offset + n <= length buf) then Ok (take n (drop offset buf))
  else Throw Js.RangeError.

Definition readUIntBE (n : nat) (buf : list byte) (offset : nat) : Res Z :=
  bs ← bytes_at buf offset n; Ok (be_uint bs).

Definition readUIntLE (n : nat) (buf : list byte) (offset : nat) : Res Z :=
  bs ← bytes_at buf offset n; Ok (be_uint (rev bs)).

Definition readIntBE (n : nat) (buf : list byte) (offset : nat) : Res Z :=
  z ← readUIntBE n buf offset; Ok (to_signed (8 * Z.of_nat n) z).

Definition readIntLE (n : nat) (buf : list byte) (offset : nat) : Res Z :=
  z ← readUIntLE n buf offset; Ok (to_signed (8 * Z.of_nat n) z).

(** [buf.subarray(start, end)]: a view, cut at the end of the buffer. *)
Definition subarray (buf : list byte) (start end_ : nat) : list byte :=
  take (end_ - start) (drop start buf).

Fixpoint swap_pairs (bs : list byte) : list byte :=
  match bs with
  | a :: b :: rest => b :: a :: swap_pairs rest
  | _ => bs
  end.

(** [buf.swap16()]: the two bytes of every 16-bit unit change places; a
    RangeError when the length is odd. *)
Definition swap16 (bs : list byte) : Res (list byte) :=
  if Nat.even (length bs) then Ok (swap_pairs bs) else Throw Js.RangeError.

Definition getEndianString (endianness : Js.value) : string :=
  match endianness with
  | Js.Num (Js.Fin 4321) => "BE"
  | Js.Num (Js.Fin 1234) => "LE"
  | Js.Num (Js.Fin 3412) => "PDP"
  | _ => ""
  end.

(** [buf.subarray(byteAddr, byteAddr + n).swap16().read()]: the view
    shares the buffer, which keeps the swapped bytes. *)
Definition read_swapped (buf : list byte) (byteAddr n : nat)
    (read : list byte -> Res Js.value) : Res (Js.value * list byte) :=
  let view := subarray buf byteAddr (byteAddr + n) in
  swapped ← swap16 view;
  v ← read swapped;
  Ok (v, take byteAddr buf ++ swapped ++ drop (byteAddr + length view) buf).

Definition unchanged (buf : list byte) (r : Res Js.value)
  : Res (Js.value * list byte) :=
  v ← r; Ok (v, buf).

Definition num (r : Res Z) : Res Js.value := z ← r; Ok (Js.Num (Js.Fin z)).
Definition big (r : Res Z) : Res Js.value := z ← r; Ok (Js.BigInt z).

(** [parseValFromBuffer(type, endianness, byteAddr, buf, bit)]: the value
    read, and the buffer as the call leaves it. *)
Definition parseValFromBuffer `{BufferPrims} (type : string)
    (endianness : Js.value) (byteAddr : nat) (buf : list byte)
    (bit : option nat) : Res (Js.value * list byte) :=
  let fullType :=
    if bool_decide (type ∈ ["boolean"; "int8"; "uInt8"]) then type
    else type +:+ getEndianString
                    (if Js.truthy endianness then endianness else Js.Null) in
  let case (c : string) := String.eqb fullType c in
  if case "boolean" then
    match bit with
    | Some (S b) =>
        let byte := default 0%Z (byte_val <$> buf !! byteAddr) in
        Ok (Js.Bool (Z.testbit byte (Z.of_nat (S b mod 32))), buf)
    | _ => Ok (Js.Num (Js.Fin (-1)), buf)
    end
  else if case "int8" then unchanged buf (num (readIntBE 1 buf byteAddr))
  else if case "int16BE" then unchanged buf (num (readIntBE 2 buf byteAddr))
  else if case "int16LE" then unchanged buf (num (readIntLE 2 buf byteAddr))
  else if case "int32BE" then unchanged buf (num (readIntBE 4 buf byteAddr))
  else if case "int32LE" then unchanged buf (num (readIntLE 4 buf byteAddr))
  else if case "int64BE" then unchanged buf (big (readIntBE 8 buf byteAddr))
  else if case "int64LE" then unchanged buf (big (readIntLE 8 buf byteAddr))
  else if case "int64PDP" then
    read_swapped buf byteAddr 8 (fun v => big (readIntBE 8 v 0))
  else if case "int32PDP" then
    read_swapped buf byteAddr 4 (fun v => num (readIntBE 4 v 0))
  else if case "uInt8" then unchanged buf (num (readUIntBE 1 buf byteAddr))
  else if case "uInt16BE" then unchanged buf (num (readUIntBE 2 buf byteAddr))
  else if case "uInt16LE" then unchanged buf (num (readUIntLE 2 buf byteAddr))
  else if case "uInt32BE" then unchanged buf (num (readUIntBE 4 buf byteAddr))
  else if case "uInt32LE" then unchanged buf (num (readUIntLE 4 buf byteAddr))
  else if case "uInt32PDP" then
    read_swapped buf byteAddr 4 (fun v => num (readUIntBE 4 v 0))
  else if case "dateTimeBE" || case "uInt64BE" then
    unchanged buf (z ← readUIntBE 8 buf byteAddr;
                   Ok (Js.Num (Number_of_bigint z)))
  else if case "dateTimeLE" || case "uInt64LE" then
    unchanged buf (z ← readUIntLE 8 buf byteAddr;
                   Ok (Js.Num (Number_of_bigint z)))
  else if case "dateTimePDP" || case "uint64PDP" then
    read_swapped buf byteAddr 8 (fun v => big (readUIntBE 8 v 0))
  else if case "floatBE" then
    unchanged buf (bs ← bytes_at buf byteAddr 4; Ok (ieee754_single bs))
  else if case "floatLE" then
    unchanged buf (bs ← bytes_at buf byteAddr 4; Ok (ieee754_single (rev bs)))
  else if case "floatPDP" then
    read_swapped buf byteAddr 4
      (fun v => bs ← bytes_at v 0 4; Ok (ieee754_single bs))
  else if case "doubleBE" then
    unchanged buf (bs ← bytes_at buf byteAddr 8; Ok (ieee754_double bs))
  else if case "doubleLE" then
    unchanged buf (bs ← bytes_at buf byteAddr 8; Ok (ieee754_double (rev bs)))
  else if case "doublePDP" then
    read_swapped buf byteAddr 8
      (fun v => bs ← bytes_at v 0 8; Ok (ieee754_double bs))
  else if case "uuid" || case "String" then Ok (Js.Str (utf8_toString buf), buf)
  else Ok (Js.Undefined, buf).

(** The endianness [parseValueFromPayload] hands to
    [parseValFromBuffer] for a payload that is a fixed buffer:
    [metric.properties.endianness.value] when the metric has the
    property, and 0 otherwise. *)
Definition fixedBuffer_endianness (metric : Metric) : Js.value :=
  match properties metric with
  | Some props =>
      match props !! "endianness" with
      | Some p => pvalue p
      | None => Js.Num (Js.Fin 0)
      end
  | None => Js.Num (Js.Fin 0)
  end.

End typeHandler.


(** ** FormatConfig.ts: the configuration rehasher *)

Module FormatConfig.
Import typeHandler.

(** A tag of the external configuration, with the fields [rehashTag]
    reads. *)
Record Tag : Type := mkTag {
  Name : option string;
  tag_value : Js.value;
  tag_type : string;
  recordToDB : Js.value;
  tag_method : Js.value;
  tag_address : Js.value;
  tag_path : Js.value;
  engUnit : Js.value;
  engLow : Js.value;
  engHigh : Js.value;
  deadBand : Js.value;
  tooltip : Js.value;
  docs : Js.value;
}.

(** [s.replace(/[BL]E/g, "")]: the matches are taken from the left and
    do not overlap. *)
Fixpoint replace_BE_LE (s : string) : string :=
  match s with
  | EmptyString => EmptyString
  | String c rest =>
      match rest with
      | String "E" rest' =>
          if Ascii.eqb c "B" || Ascii.eqb c "L" then replace_BE_LE rest'
          else String c (replace_BE_LE rest)
      | _ => String c (replace_BE_LE rest)
      end
  end.

(** [s.endsWith(suffix)] *)
Fixpoint endsWith (s suffix : string) : bool :=
  String.eqb s suffix ||
  match s with
  | EmptyString => false
  | String _ rest => endsWith rest suffix
  end.

(** [rehashTag(tag)].  The type is rewritten first and every later read
    of [tag.type] sees the rewritten one.  The test
    [tag.type == sparkplugDataType] guards a call whose result is
    dropped, and is left out. *)
Definition rehashTag (tag : Tag) : Metric :=
  let type := replace_BE_LE (tag_type tag) in
  let str (v : Js.value) := mkProperty v "string" in
  let float (v : Js.value) := mkProperty v "float" in
  mkMetric (Name tag) None type (tag_value tag) Js.Undefined None
    (Some (negb (Js.truthy (recordToDB tag))))
    (Some (<["method" := str (tag_method tag)]>
          (<["address" := str (tag_address tag)]>
          (<["path" := str (tag_path tag)]>
          (<["engUnit" := str (engUnit tag)]>
          (<["engLow" := float (engLow tag)]>
          (<["engHigh" := float (engHigh tag)]>
          (<["deadband" := str (deadBand tag)]>
          (<["tooltip" := str (tooltip tag)]>
          (<["documentation" := str (docs tag)]>
          (<["endianness" :=
               mkProperty
                 (if endsWith type "BE" then Js.Num (Js.Fin 4321)
                  else if endsWith type "LE" then Js.Num (Js.Fin 1234)
                  else Js.Null)
                 "uInt16"]> ∅))))))))))).

End FormatConfig.

(** ** device.js: the Device and what it talks to *)

Module device.
Import typeHandler.

Inductive LogMsg : Type :=
| LogDisconnected (deviceId : string)
| LogConnected (deviceId : string)
| LogSubscriptionStarted (deviceId : string) (pollInterval : Js.value)
| LogSubscriptionStopped (deviceId : string)
| LogMetricsWritten (deviceId : string)
| LogBirthNotConnected
| LogRebootNotImplemented
| LogConfigUpdated (key : string) (value : Js.value)
| LogDCmd (name : option string) (value : Js.value)
| LogRebirthRequested (deviceId : string)
| LogReadOnly (name : string)
| LogError.

(** The frames handed to the Sparkplug node, with the metrics as they
    are when the frame is published.  A DATA frame lists what the
    setters returned. *)
Inductive Frame : Type :=
| DBIRTH (metrics : list Metric)
| DDATA (metrics : list (option Metric))
| DDEATH.

(** [./config/conf.json]: the devices of every connection, each with
    its keyed settings. *)
Record DeviceEntry : Type := mkDeviceEntry {
  deviceId : string;
  settings : gmap string Js.value;
}.

Definition Conf : Type := list (list DeviceEntry).

(** What the Device does to its collaborators, in the order it does it:
    the Sparkplug node, the log, the driver, the watchdog and the file. *)
Inductive Effect : Type :=
| Publish (f : Frame)
| Log (m : LogMsg)
| ReadMetrics
| WriteMetrics (metrics : list Metric)
| StartSubscription (interval : Js.value)
| StopSubscription
| RefreshDeathTimer
| ClearDeathTimer
| ReadFile
| WriteFile (conf : Conf).

(** The Device, together with the callbacks it has handed out and that
    have not run yet, the configuration file and the clock. *)
Record Device : Type := mkDevice {
  _name : string;
  _metrics : Metrics;
  isAlive : bool;
  _isConnected : bool;
  _payloadFormat : string;
  _delimiter : string;
  readyInterval : bool;
  birthsPending : nat;
  writesPending : list (list Metric);
  configReadsPending : list (string * Js.value);
  confFile : option Conf;
  clock : Z;
  effects : list Effect;
}.

Definition set_metrics (s : Metrics) (d : Device) : Device :=
  mkDevice (_name d) s (isAlive d) (_isConnected d) (_payloadFormat d)
    (_delimiter d) (readyInterval d) (birthsPending d) (writesPending d)
    (configReadsPending d) (confFile d) (clock d) (effects d).

Definition set_isAlive (b : bool) (d : Device) : Device :=
  mkDevice (_name d) (_metrics d) b (_isConnected d) (_payloadFormat d)
    (_delimiter d) (readyInterval d) (birthsPending d) (writesPending d)
    (configReadsPending d) (confFile d) (clock d) (effects d).

Definition set_isConnected (b : bool) (d : Device) : Device :=
  mkDevice (_name d) (_metrics d) (isAlive d) b (_payloadFormat d)
    (_delimiter d) (readyInterval d) (birthsPending d) (writesPending d)
    (configReadsPending d) (confFile d) (clock d) (effects d).

Definition set_readyInterval (b : bool) (d : Device) : Device :=
  mkDevice (_name d) (_metrics d) (isAlive d) (_isConnected d)
    (_payloadFormat d) (_delimiter d) b (birthsPending d) (writesPending d)
    (configReadsPending d) (confFile d) (clock d) (effects d).

Definition set_birthsPending (n : nat) (d : Device) : Device :=
  mkDevice (_name d) (_metrics d) (isAlive d) (_isConnected d)
    (_payloadFormat d) (_delimiter d) (readyInterval d) n (writesPending d)
    (configReadsPending d) (confFile d) (clock d) (effects d).

Definition set_writesPending (w : list (list Metric)) (d : Device) : Device :=
  mkDevice (_name d) (_metrics d) (isAlive d) (_isConnected d)
    (_payloadFormat d) (_delimiter d) (readyInterval d) (birthsPending d) w
    (configReadsPending d) (confFile d) (clock d) (effects d).

Definition set_configReadsPending (c : list (string * Js.value)) (d : Device)
  : Device :=
  mkDevice (_name d) (_metrics d) (isAlive d) (_isConnected d)
    (_payloadFormat d) (_delimiter d) (readyInterval d) (birthsPending d)
    (writesPending d) c (confFile d) (clock d) (effects d).

Definition set_confFile (c : option Conf) (d : Device) : Device :=
  mkDevice (_name d) (_metrics d) (isAlive d) (_isConnected d)
    (_payloadFormat d) (_delimiter d) (readyInterval d) (birthsPending d)
    (writesPending d) (configReadsPending d) c (clock d) (effects d).

Definition set_clock (t : Z) (d : Device) : Device :=
  mkDevice (_name d) (_metrics d) (isAlive d) (_isConnected d)
    (_payloadFormat d) (_delimiter d) (readyInterval d) (birthsPending d)
    (writesPending d) (configReadsPending d) (confFile d) t (effects d).

Definition set_effects (e : list Effect) (d : Device) : Device :=
  mkDevice (_name d) (_metrics d) (isAlive d) (_isConnected d)
    (_payloadFormat d) (_delimiter d) (readyInterval d) (birthsPending d)
    (writesPending d) (configReadsPending d) (confFile d) (clock d) e.

(** A method of the Device: it runs on the Device and either returns or
    throws, and what it did before throwing stays done. *)
Inductive Outcome (A : Type) : Type :=
| Return (a : A) (d : Device)
| Raise (e : Js.error) (d : Device).
Arguments Return {A} a d.
Arguments Raise {A} e d.

Definition M (A : Type) : Type := Device -> Outcome A.

#[global] Instance M_ret : MRet M := fun A a d => Return a d.
#[global] Instance M_bind : MBind M := fun A B f m d =>
  match m d with
  | Return a d' => f a d'
  | Raise e d' => Raise e d'
  end.

Definition final {A : Type} (o : Outcome A) : Device :=
  match o with
  | Return _ d => d
  | Raise _ d => d
  end.

Definition gets {A : Type} (f : Device -> A) : M A := fun d => Return (f d) d.
Definition modify (f : Device -> Device) : M unit := fun d => Return tt (f d).
Definition raise {A : Type} (e : Js.error) : M A := fun d => Raise e d.
Definition emit (e : Effect) : M unit :=
  modify (fun d => set_effects (effects d ++ [e]) d).
Definition log (m : LogMsg) : M unit := emit (Log m).

Definition lift {A : Type} (r : Res A) : M A :=
  match r with
  | Ok a => mret a
  | Throw e => raise e
  end.

(** A call of a method of [this._metrics] that updates the store. *)
Definition on_metrics {A : Type} (f : Metrics -> Res (A * Metrics)) : M A :=
  s ← gets _metrics;
  r ← lift (f s);
  modify (set_metrics r.2);;
  mret r.1.

(** A call of a method of [this._metrics] that only reads it. *)
Definition from_metrics {A : Type} (f : Metrics -> Res A) : M A :=
  s ← gets _metrics;
  lift (f s).

(** A thing done for every element of a list, in order. *)
Fixpoint forEach {A : Type} (f : A -> M unit) (l : list A) : M unit :=
  match l with
  | [] => mret tt
  | x :: l' => f x;; forEach f l'
  end.

Fixpoint mapM {A B : Type} (f : A -> M B) (l : list A) : M (list B) :=
  match l with
  | [] => mret []
  | x :: l' => y ← f x; ys ← mapM f l'; mret (y :: ys)
  end.

Fixpoint foldM {A B : Type} (f : B -> A -> M B) (l : list A) (b : B) : M B :=
  match l with
  | [] => mret b
  | x :: l' => b' ← f b x; foldM f l' b'
  end.

(** The change filter of [_handleData]:
    [(newVal || newVal == 0) &&
     (((typeof metric.value !== "object") && (metric.value !== newVal))
      || !util.isDeepStrictEqual(metric.value, newVal))] *)
Definition change_filter (current newVal : Js.value) : bool :=
  (Js.truthy newVal || Js.loose_eq_zero newVal)
  && ((negb (String.eqb (Js.typeof current) "object")
       && negb (Js.strict_eq current newVal))
      || negb (Js.isDeepStrictEqual current newVal)).

Section Device.

(** The codec layer, whose JSON, JSONPath and XML readers live in
    libraries: [parseValueFromPayload(msg, metric, payloadFormat, delimiter)]
    and [parseTimeStampFromPayload] of typeHandler.js. *)
Context `{BufferPrims}.
Variable parseValueFromPayload :
  Js.value -> Metric -> string -> string -> Res Js.value.
Variable parseTimeStampFromPayload :
  Js.value -> Metric -> string -> string -> Js.value.

Definition _refreshDeathTimer : M unit := emit RefreshDeathTimer.

(** [#readMetricsOnce()]; the driver answers with a [data] event. *)
Definition readMetricsOnce : M unit := emit ReadMetrics.

(** [_publishDBirth(readRequired = false)]; the promise of the Sparkplug
    node is resolved later, see [birthPublished]. *)
Definition _publishDBirth (readRequired : bool) : M unit :=
  connected ← gets _isConnected;
  if connected : bool then
    (if readRequired then readMetricsOnce else mret tt);;
    metrics ← gets (fun d => array (_metrics d));
    emit (Publish (DBIRTH metrics));;
    modify (fun d => set_birthsPending (S (birthsPending d)) d)
  else
    log LogBirthNotConnected.

(** [.then(() => { this.#isAlive = true; })] *)
Definition birthPublished : M unit :=
  modify (fun d => set_isAlive true (set_birthsPending (pred (birthsPending d)) d)).

Definition _publishDData (metrics : list (option Metric)) : M unit :=
  alive ← gets isAlive;
  if alive : bool then emit (Publish (DDATA metrics))
  else _publishDBirth false.

(** [#publishDDeath()] *)
Definition publishDDeath : M unit :=
  connected ← gets _isConnected;
  if connected : bool then
    emit (Publish DDEATH);;
    modify (set_isAlive false)
  else mret tt.

Definition _deviceDisconnected : M unit :=
  name ← gets _name;
  log (LogDisconnected name);;
  publishDDeath;;
  modify (set_isConnected false).

Definition _deviceConnected : M unit :=
  modify (set_isConnected true);;
  name ← gets _name;
  log (LogConnected name);;
  _publishDBirth false.

(** [#subscribeToMetricChanges()], on the default driver, whose
    [startSubscription] arms a timer and calls back at once. *)
Definition subscribeToMetricChanges : M unit :=
  m ← from_metrics (getByName "Device Control/Polling Interval");
  match m with
  | Some m =>
      let pollInterval := value m in
      name ← gets _name;
      emit (StartSubscription pollInterval);;
      log (LogSubscriptionStarted name pollInterval)
  | None => raise Js.TypeError
  end.

(** [_stopMetricSubscription()], on the default driver. *)
Definition _stopMetricSubscription : M unit :=
  name ← gets _name;
  emit StopSubscription;;
  log (LogSubscriptionStopped name).

(** The callback of the [readyInterval] timer of the constructor. *)
Definition readyTick : M unit :=
  connected ← gets _isConnected;
  if connected : bool then
    subscribeToMetricChanges;;
    modify (set_readyInterval false)
  else mret tt.

(** The body of the [paths.forEach] of [_handleData]. *)
Definition handlePath (obj : gmap string Js.value) (parseVals : bool)
    (addr : string) (changedMetrics : list (option Metric)) (path : string)
  : M (list (option Metric)) :=
  metric ← from_metrics (getByAddrPath addr path);
  match metric with
  | None => raise Js.TypeError
  | Some metric =>
      match properties metric with
      | None => mret changedMetrics
      | Some props =>
          isGet ← lift (method_is_GET props);
          let hasPath :=
            match props !! "path" with
            | Some p => Js.truthy (pvalue p)
            | None => false
            end in
          if isGet : bool then
            if negb parseVals
               || (parseVals
                   && (hasPath || bool_decide (length (keys obj) = 1))) then
              let raw := default Js.Undefined (obj !! addr) in
              fmt ← gets _payloadFormat;
              delim ← gets _delimiter;
              newVal ← (if parseVals
                        then lift (parseValueFromPayload raw metric fmt delim)
                        else mret raw);
              if change_filter (value metric) newVal then
                let timestamp :=
                  parseTimeStampFromPayload raw metric fmt delim in
                now ← gets clock;
                updated ← on_metrics
                            (setValueByAddrPath addr path newVal timestamp now);
                mret (changedMetrics ++ [updated])
              else mret changedMetrics
            else mret changedMetrics
          else mret changedMetrics
      end
  end.

Definition _handleData (obj : gmap string Js.value) (parseVals : bool) : M unit :=
  changedMetrics ←
    foldM (fun changed addr =>
             paths ← gets (fun d => getPathsForAddr addr (_metrics d));
             foldM (handlePath obj parseVals addr) paths changed)
          (keys obj) [];
  (if bool_decide (changedMetrics = []) then mret tt
   else _publishDData changedMetrics);;
  _refreshDeathTimer.

(** The success branch of the callback of [#writeMetrics(metrics)]. The
    named entries of [metrics.array] are replaced by the metrics of the
    store themselves, so the frame shows them as the loop leaves them. *)
Definition written (metrics : list Metric) : M unit :=
  forEach (fun metric =>
             match name metric with
             | Some n =>
                 now ← gets clock;
                 on_metrics (setValueByName n (value metric) Js.Undefined now);;
                 mret tt
             | None => mret tt
             end) metrics;;
  array ← mapM (fun metric =>
                  match name metric with
                  | Some n => from_metrics (getByName n)
                  | None => mret (Some metric)
                  end) metrics;
  _publishDData array;;
  name ← gets _name;
  log (LogMetricsWritten name);;
  _refreshDeathTimer.

(** The callback the driver is given by [#writeMetrics(metrics)]. *)
Definition writeCallback (err : bool) (metrics : list Metric) : M unit :=
  if err then log LogError else written metrics.

(** [#writeMetrics(metrics)]: the driver is asked to write, and calls
    back when it chooses to (see [WriteDone]). *)
Definition writeMetrics (metrics : Metrics) : M unit :=
  emit (WriteMetrics (array metrics));;
  modify (fun d => set_writesPending (writesPending d ++ [array metrics]) d).

Definition stop : M unit :=
  _stopMetricSubscription;;
  emit ClearDeathTimer.

Definition reboot : M unit := log LogRebootNotImplemented.

(** The inner loop of [#updateConfig]: the first device of the
    connection that carries this name gets the key. *)
Fixpoint setDeviceKey (name key : string) (value : Js.value)
    (devices : list DeviceEntry) : list DeviceEntry :=
  match devices with
  | [] => []
  | dev :: rest =>
      if String.eqb (deviceId dev) name
      then mkDeviceEntry (deviceId dev) (<[key := value]> (settings dev)) :: rest
      else dev :: setDeviceKey name key value rest
  end.

(** [#updateConfig(key, value)] asks for the file; [configRead] is the
    callback of [fs.readFile], which rewrites it. *)
Definition updateConfig (key : string) (value : Js.value) : M unit :=
  emit ReadFile;;
  modify (fun d => set_configReadsPending (configReadsPending d ++ [(key, value)]) d).

Definition configRead (key : string) (value : Js.value) : M unit :=
  file ← gets confFile;
  match file with
  | None => log LogError;; raise Js.TypeError
  | Some conf =>
      name ← gets _name;
      let conf' := map (setDeviceKey name key value) conf in
      modify (set_confFile (Some conf'));;
      emit (WriteFile conf');;
      log (LogConfigUpdated key value)
  end.

Definition with_name_alias (n : option string) (a : Z) (m : Metric) : Metric :=
  mkMetric n (Some a) (type m) (value m) (timestamp m) (isNull m)
           (isTransient m) (properties m).

(** [!metric.name] *)
Definition no_name (m : Metric) : bool :=
  match name m with
  | Some n => String.eqb n ""
  | None => true
  end.

(** [Long.isLong(v) ? v.toNumber() : v] *)
Definition narrow (v : Js.value) : Js.value :=
  match v with
  | Js.Long z => Js.Num (Number_of_bigint z)
  | _ => v
  end.

(** The body of the loop of [_handleDCmd]. *)
Definition handleDCmdMetric (metricsToWrite : list Metric) (metric : Metric)
  : M (list Metric) :=
  metric ← (if no_name metric then
              match alias metric with
              | None => raise Js.TypeError
              | Some a =>
                  found ← from_metrics (getByAlias a);
                  match found with
                  | None => raise Js.TypeError
                  | Some m => mret (with_name_alias (name m) a metric)
                  end
              end
            else mret metric);
  log (LogDCmd (name metric) (value metric));;
  match name metric with
  | Some n =>
      if String.eqb n "Device Control/Reboot" then
        (if Js.truthy (value metric) then reboot else mret tt);;
        mret metricsToWrite
      else if String.eqb n "Device Control/Rebirth" then
        (if Js.truthy (value metric) then
           deviceId ← gets _name;
           log (LogRebirthRequested deviceId);;
           _publishDBirth false
         else mret tt);;
        mret metricsToWrite
      else if String.eqb n "Device Control/Polling Interval" then
        _stopMetricSubscription;;
        now ← gets clock;
        on_metrics (setValueByName n (value metric)
                      (timestamp_or_now (timestamp metric) now) now);;
        _publishDData [Some metric];;
        subscribeToMetricChanges;;
        updateConfig "pollInt" (value metric);;
        mret metricsToWrite
      else
        oldMetric ← from_metrics (getByName n);
        match oldMetric with
        | Some old =>
            let newMetric := with_value (narrow (value metric)) old in
            match properties newMetric with
            | Some props =>
                match props !! "method" with
                | Some method =>
                    if negb (Js.strict_eq (pvalue method) (Js.Str "GET"))
                    then mret (metricsToWrite ++ [newMetric])
                    else log (LogReadOnly n);; mret metricsToWrite
                | None => raise Js.TypeError
                end
            | None => log (LogReadOnly n);; mret metricsToWrite
            end
        | None => log (LogReadOnly n);; mret metricsToWrite
        end
  | None => mret metricsToWrite
  end.

Definition _handleDCmd (payload : list Metric) : M unit :=
  metricsToWrite ← foldM handleDCmdMetric payload [];
  if bool_decide (metricsToWrite = []) then mret tt
  else
    metrics ← lift (new_Metrics metricsToWrite);
    writeMetrics metrics.

(** *** Construction *)

Definition str_prop (s : string) : Property := mkProperty (Js.Str s) "string".

(** The properties every default metric starts from. *)
Definition control_props (friendlyName tooltip : string)
  : gmap string Property :=
  <["method" := str_prop ""]>
  (<["address" := str_prop ""]>
  (<["path" := str_prop ""]>
  (<["friendlyName" := str_prop friendlyName]>
  (<["tooltip" := str_prop tooltip]> ∅)))).

(** [this._defaultMetrics], without templates. *)
Definition defaultMetrics (pollInt : Js.value) (now : Z) : list Metric :=
  [ mkMetric (Some "Device Control/Polling Interval") None "uInt16" pollInt
      (Js.Num (Js.Fin now)) None (Some true)
      (Some (<["engUnit" := str_prop "ms"]>
            (<["engLow" := mkProperty (Js.Num (Js.Fin 0)) "float"]>
            (<["engHigh" := mkProperty (Js.Num (Js.Fin 1)) "float"]>
            (control_props "Device Polling Interval"
               "Polling interval for device metrics in ms.")))));
    mkMetric (Some "Device Control/Reboot") None "boolean" (Js.Bool false)
      (Js.Num (Js.Fin now)) None (Some true)
      (Some (control_props "Reboot Device" "Issue a reboot device command."));
    mkMetric (Some "Device Control/Rebirth") None "boolean" (Js.Bool false)
      (Js.Num (Js.Fin now)) None (Some true)
      (Some (control_props "Rebirth Device"
               "Request a new device birth certificate.")) ].

(** [deviceOptions], and the file and the time the Device is born into. *)
Record Options : Type := mkOptions {
  opt_deviceId : string;
  opt_pollInt : Js.value;
  opt_payloadFormat : string;
  opt_delimiter : option string;
  opt_metrics : list Metric;
}.

(** [new Device(spClient, devConn, options)], with no templates. *)
Definition new_Device (options : Options) (file : option Conf) (now : Z)
  : Res Device :=
  metrics ← new_Metrics (defaultMetrics (opt_pollInt options) now);
  Ok (mkDevice (opt_deviceId options) metrics false false
        (opt_payloadFormat options) (default "" (opt_delimiter options))
        true 0 [] [] file now []).

(** The loop of the constructor of [S7Device] over [options.metrics]:
    the truthy addresses, which go to the item group of the connection.
    A metric with properties and no address makes it throw. *)
Fixpoint s7Vars (metrics : list Metric) : Res (list string) :=
  match metrics with
  | [] => Ok []
  | metric :: rest =>
      here ← match properties metric with
             | None => Ok []
             | Some props =>
                 match props !! "address" with
                 | None => Throw Js.TypeError
                 | Some address =>
                     Ok (if Js.truthy (pvalue address)
                         then [Js.to_key (pvalue address)] else [])
                 end
             end;
      vars ← s7Vars rest;
      Ok (here ++ vars)
  end.

(** [new S7Device(spClient, devConn, options)]: the metrics of the
    options are added after the default ones, and their addresses handed
    to the connection. *)
Definition new_S7Device (options : Options) (file : option Conf) (now : Z)
  : Res Device :=
  d ← new_Device options file now;
  metrics ← add (opt_metrics options) (_metrics d);
  _ ← s7Vars (opt_metrics options);
  Ok (set_metrics metrics d).

(** *** The events a Device lives through *)

Inductive Event : Type :=
| DriverOpen
| DriverClose
| DriverData (obj : gmap string Js.value) (parseVals : bool)
| WatchdogExpired
| ReadyTick
| BirthPublished
| WriteDone (err : bool)
| ConfigFileRead
| SpDBirth
| SpDCmd (payload : list Metric)
| Stop.

(** What each event runs.  A callback only runs when it is pending. *)
Definition handle (ev : Event) : M unit :=
  match ev with
  | DriverOpen => _deviceConnected
  | DriverClose => _deviceDisconnected
  | DriverData obj parseVals => _handleData obj parseVals
  | WatchdogExpired => publishDDeath
  | ReadyTick =>
      armed ← gets readyInterval;
      if armed : bool then readyTick else mret tt
  | BirthPublished =>
      n ← gets birthsPending;
      match n with
      | O => mret tt
      | S _ => birthPublished
      end
  | WriteDone err =>
      pending ← gets writesPending;
      match pending with
      | [] => mret tt
      | metrics :: rest =>
          modify (set_writesPending rest);;
          writeCallback err metrics
      end
  | ConfigFileRead =>
      pending ← gets configReadsPending;
      match pending with
      | [] => mret tt
      | (key, value) :: rest =>
          modify (set_configReadsPending rest);;
          configRead key value
      end
  | SpDBirth => _publishDBirth false
  | SpDCmd payload => _handleDCmd payload
  | Stop => stop
  end.

(** One event at time [t], and a run of events. *)
Definition step (d : Device) (te : Z * Event) : Device :=
  final (handle te.2 (set_clock te.1 d)).

Definition run (d : Device) (events : list (Z * Event)) : Device :=
  fold_left step events d.

End Device.

End device.

Import typeHandler FormatConfig device.

(** ** The vocabulary of the specification *)

(** The metric a setter is to leave behind: the value, the timestamp and
    the null flag are new, every other field is the old one. *)
Definition updated (v timestamp : Js.value) (now : Z) (m : Metric) : Metric :=
  mkMetric (name m) (alias m) (type m) v
    (if Js.truthy timestamp then timestamp else Js.Num (Js.Fin now))
    (Some (bool_decide (v = Js.Null)))
    (isTransient m) (properties m).

(** The store with the metric at [i] replaced, and nothing else touched. *)
Definition replaced (i : nat) (m : Metric) (s : Metrics) : Metrics :=
  mkMetrics (<[i := m]> (array s)) (addrIndex s) (addrPathIndex s)
    (nameIndex s) (aliasIndex s).

(** Whether [#buildIndices] takes the metric for the address [addr]: it
    has an address and a path, its method starts with GET, and the
    address is [addr]. *)
Definition holds_address (addr : string) (m : Metric) : bool :=
  match properties m with
  | Some props =>
      match props !! "address", props !! "path", method_is_GET props with
      | Some address, Some _, Ok true =>
          String.eqb (Js.to_key (pvalue address)) addr
      | _, _, _ => false
      end
  | None => false
  end.

(** The positions [#buildIndices] pushes for [addr] while it walks [rest],
    whose first metric sits at position [i]. *)
Fixpoint pushes (addr : string) (i : nat) (rest : list Metric) : list nat :=
  match rest with
  | [] => []
  | m :: rest' =>
      (if holds_address addr m then [i; i] else []) ++ pushes addr (S i) rest'
  end.

(** A store to try things on: the one a Device starts with, built at
    time 5 for a polling interval of 1000 ms. *)
Definition sample_store : Metrics :=
  Eval vm_compute in
    match new_Metrics (defaultMetrics (Js.Num (Js.Fin 1000)) 5) with
    | Ok s => s
    | Throw _ => mkMetrics [] ∅ ∅ ∅ ∅
    end.

(** Its first metric, [Device Control/Polling Interval]. *)
Definition sample_polling : Metric :=
  Eval vm_compute in
    default (mkMetric None None "" Js.Undefined Js.Undefined None None None)
            (head (defaultMetrics (Js.Num (Js.Fin 1000)) 5)).

(** A tag of an S7 connection, the metric [rehashTag] makes of it, and
    the store after that metric is added. *)
Definition sample_tag : Tag :=
  mkTag (Some "Spindle/Speed") Js.Undefined "uInt32" (Js.Bool true)
    (Js.Str "GET") (Js.Str "DB1,DW0") (Js.Str "0") Js.Undefined Js.Undefined
    Js.Undefined Js.Undefined Js.Undefined Js.Undefined.

Definition sample_metric : Metric := Eval vm_compute in rehashTag sample_tag.

Definition sample_store_added : Metrics :=
  Eval vm_compute in
    match add [sample_metric] sample_store with
    | Ok s => s
    | Throw _ => mkMetrics [] ∅ ∅ ∅ ∅
    end.

(** [tag] with another declared type. *)
Definition with_tag_type (ty : string) (tag : Tag) : Tag :=
  mkTag (Name tag) (tag_value tag) ty (recordToDB tag) (tag_method tag)
    (tag_address tag) (tag_path tag) (engUnit tag) (engLow tag) (engHigh tag)
    (deadBand tag) (tooltip tag) (docs tag).

(** The names of [sparkplugDataType]. *)
Definition sparkplugDataTypes : list string :=
  [ "boolean"; "int8"; "int16"; "int32"; "int64"; "uInt8"; "uInt16";
    "uInt32"; "uInt64"; "float"; "double"; "dateTime"; "string"; "text";
    "uuid"; "dataSet"; "bytes"; "file"; "template"; "propertySet";
    "propertySetList" ].

(** The [endianness] property of a metric. *)
Definition endianness_of (m : Metric) : option Property :=
  props ← properties m; props !! "endianness".

(** A platform to try things on; it decodes no float. *)
Definition sample_prims : BufferPrims :=
  Build_BufferPrims (fun _ => Js.Num Js.NaN) (fun _ => Js.Num Js.NaN) Js.Fin
    string_of_list_byte.

(** The frames among the effects of a Device, oldest first. *)
Definition frame_of (e : Effect) : option Frame :=
  match e with
  | Publish f => Some f
  | _ => None
  end.

Definition frames (d : Device) : list Frame := omap frame_of (effects d).

Definition is_birth (f : Frame) : bool :=
  match f with
  | DBIRTH _ => true
  | _ => false
  end.


(** The frames match [(BIRTH DATA* DEATH?)*]: every epoch opens with a
    BIRTH, and after a DEATH only a BIRTH may follow. *)
Fixpoint epochs_from (in_epoch : bool) (fs : list Frame) : bool :=
  match fs with
  | [] => true
  | DBIRTH _ :: rest => epochs_from true rest
  | DDATA _ :: rest => in_epoch && epochs_from true rest
  | DDEATH :: rest => in_epoch && epochs_from false rest
  end.

Definition epochs_ok (fs : list Frame) : bool := epochs_from false fs.

(** No DATA frame comes before the first BIRTH. *)
Fixpoint births_first (fs : list Frame) : bool :=
  match fs with
  | [] => true
  | DBIRTH _ :: _ => true
  | DDATA _ :: _ => false
  | DDEATH :: rest => births_first rest
  end.

(** What the lifecycle keeps true of a Device: no DATA was published
    before a BIRTH, and a Device that is alive, or awaits the
    acknowledgement of a BIRTH, has published one. *)
Definition lifecycle_inv (d : Device) : Prop :=
  births_first (frames d) = true
  /\ (isAlive d = true \/ birthsPending d <> 0 ->
      existsb is_birth (frames d) = true).

(** A method keeps the lifecycle invariant, however it ends. *)
Definition preserves {A : Type} (m : M A) : Prop :=
  forall d, lifecycle_inv d -> lifecycle_inv (final (m d)).

(** A change of the Device that leaves the lifecycle fields alone. *)
Definition neutral (f : Device -> Device) : Prop :=
  forall d, isAlive (f d) = isAlive d
            /\ birthsPending (f d) = birthsPending d
            /\ effects (f d) = effects d.

(** A codec to try things on.  The values pass as they come, which is
    what [parseValueFromPayload] answers for the format JSON and the
    path [$], the root, on a payload that is a value already and no
    string; and no timestamp is read, which is what
    [parseTimeStampFromPayload] answers for every format but JSON, and
    for JSON on a payload without a [timestamp]. *)
Definition sample_parseValue (raw : Js.value) (_ : Metric) (_ _ : string)
  : Res Js.value := Ok raw.

Definition sample_parseTimeStamp (_ : Js.value) (_ : Metric) (_ _ : string)
  : Js.value := Js.Undefined.

(** A configuration file with two connections, and the S7 Device [plc1]
    as it is constructed, once connected, and once its BIRTH is
    acknowledged. *)
Definition sample_conf : Conf :=
  [ [ mkDeviceEntry "plc0" {[ "pollInt" := Js.Num (Js.Fin 500) ]};
      mkDeviceEntry "plc1" {[ "pollInt" := Js.Num (Js.Fin 1000) ]} ];
    [ mkDeviceEntry "plc2" ∅ ] ].

Definition sample_options : Options :=
  mkOptions "plc1" (Js.Num (Js.Fin 1000)) "Defined by Protocol" None
    [sample_metric].

Definition sample_device : Device :=
  Eval vm_compute in
    match new_S7Device sample_options (Some sample_conf) 5 with
    | Ok d => d
    | Throw _ => mkDevice "" sample_store false false "" "" false 0 [] []
                   None 0 []
    end.

Definition sample_connected : Device :=
  Eval vm_compute in final (_deviceConnected sample_device).

Definition sample_alive : Device :=
  Eval vm_compute in final (birthPublished sample_connected).



(** A second tag, whose method starts with GET without being GET, the
    Device [plc1] with both metrics, alive, and a DCMD metric for the
    second. *)
Definition sample_tag_raw : Tag :=
  mkTag (Some "Spindle/Load") Js.Undefined "uInt16" (Js.Bool true)
    (Js.Str "GET_RAW") (Js.Str "DB1,W4") (Js.Str "0") Js.Undefined
    Js.Undefined Js.Undefined Js.Undefined Js.Undefined Js.Undefined.

Definition sample_metric_raw : Metric :=
  Eval vm_compute in rehashTag sample_tag_raw.

Definition sample_alive_two : Device :=
  Eval vm_compute in
    match new_S7Device
            (mkOptions "plc1" (Js.Num (Js.Fin 1000)) "Defined by Protocol"
               None [sample_metric; sample_metric_raw])
            (Some sample_conf) 5 with
    | Ok d => final (birthPublished (final (_deviceConnected d)))
    | Throw _ => sample_alive
    end.

Definition sample_write_load : Metric :=
  mkMetric (Some "Spindle/Load") None "uInt16" (Js.Num (Js.Fin 80))
    Js.Undefined None None None.


(** What the command for [Spindle/Load] queues, the store made of it,
    and the Device after the command for [Spindle/Load] alone. *)
Definition sample_load_written : Metric :=
  Eval vm_compute in with_value (Js.Num (Js.Fin 80)) sample_metric_raw.

Definition sample_load_store : Metrics :=
  Eval vm_compute in
    match new_Metrics [sample_load_written] with
    | Ok s => s
    | Throw _ => sample_store
    end.

Definition sample_load_queued : Device :=
  Eval vm_compute in
    final (_handleDCmd (H := sample_prims) [sample_write_load]
             sample_alive_two).

(** A value the change filter can take: not undefined, not null, and
    not NaN. *)
Definition sensible (v : Js.value) : Prop :=
  v <> Js.Undefined /\ v <> Js.Null /\ v <> Js.Num Js.NaN.

(** The new value differs from the current one: the two are not
    deeply and strictly equal, the two zeros being different values. *)
Definition differs (current newVal : Js.value) : bool :=
  negb (Js.isDeepStrictEqual current newVal).

(** The difference as the specification words it: by [!==] when the
    current value is a primitive, by deep equality when it is not. *)
Definition scalar_or_deep (current newVal : Js.value) : bool :=
  if String.eqb (Js.typeof current) "object"
  then negb (Js.isDeepStrictEqual current newVal)
  else negb (Js.strict_eq current newVal).

(** The key a property of a metric gives, when the metric has it. *)
Definition key_of (k : string) (m : Metric) : option string :=
  props ← properties m; p ← props !! k; Some (Js.to_key (pvalue p)).

(** Every entry of the (address, path) index points at a metric of the
    array that has this address and this path. *)
Definition index_sound (s : Metrics) : Prop :=
  forall addr paths path i,
    addrPathIndex s !! addr = Some paths -> paths !! path = Some i ->
    exists m, array s !! i = Some m
              /\ key_of "address" m = Some addr
              /\ key_of "path" m = Some path.

(** A payload decodes to the same value again once the metric stores
    the value it decoded to.  Every branch of [parseValueFromPayload]
    but one reads the payload, the type and the properties of the metric
    only; the dataSet branch copies the stored value and replaces its
    [rows] by what the payload and the stored [columns] give, which the
    copy leaves as they were. *)
Definition decoder_settles
    (parseValue : Js.value -> Metric -> string -> string -> Res Js.value)
  : Prop :=
  forall raw m v t now fmt delim,
    parseValue raw m fmt delim = Ok v ->
    parseValue raw (updated v t now m) fmt delim = Ok v.

(** The index holds the pair (address, path) itself. *)
Definition held (s : Metrics) (addr path : string) : Prop :=
  exists paths i, addrPathIndex s !! addr = Some paths /\ paths !! path = Some i.

(** [typeof metric.properties.path !== "undefined" &&
    metric.properties.path.value], as a condition. *)
Definition has_path (props : gmap string Property) : bool :=
  match props !! "path" with
  | Some p => Js.truthy (pvalue p)
  | None => false
  end.

(** What [handlePath] comes to for the metric at (address, path) in the
    store [s]: it throws, it leaves the metric alone, or it accepts a new
    value for the metric, found at some position. *)
Definition path_verdict
    (parseValue : Js.value -> Metric -> string -> string -> Res Js.value)
    (obj : gmap string Js.value) (parseVals : bool) (fmt delim : string)
    (s : Metrics) (addr path : string)
  : Res (option (nat * Metric * Js.value)) :=
  match addrPath_lookup addr path s with
  | Throw e => Throw e
  | Ok None => Throw Js.TypeError
  | Ok (Some i) =>
      match array s !! i with
      | None => Throw Js.TypeError
      | Some metric =>
          match properties metric with
          | None => Ok None
          | Some props =>
              isGet ← method_is_GET props;
              if (isGet : bool)
                 && (negb parseVals
                     || (parseVals
                         && (has_path props
                             || bool_decide (length (keys obj) = 1))))
              then
                let raw := default Js.Undefined (obj !! addr) in
                newVal ← (if parseVals
                          then parseValue raw metric fmt delim
                          else Ok raw);
                if change_filter (value metric) newVal
                then Ok (Some (i, metric, newVal))
                else Ok None
              else Ok None
          end
      end
  end.

(** The (address, path) pairs [_handleData] visits, in its order. *)
Definition visited (obj : gmap string Js.value) (s : Metrics)
  : list (string * string) :=
  addr ← keys obj; path ← getPathsForAddr addr s; [(addr, path)].

(** [handlePath] over a list of (address, path) pairs. *)
Definition run_items
    (parseValue : Js.value -> Metric -> string -> string -> Res Js.value)
    (parseTimeStamp : Js.value -> Metric -> string -> string -> Js.value)
    (obj : gmap string Js.value) (parseVals : bool)
    (items : list (string * string)) (changed : list (option Metric))
  : M (list (option Metric)) :=
  foldM (fun changed item =>
           handlePath parseValue parseTimeStamp obj parseVals item.1 changed
             item.2)
        items changed.

(** What two calls of [_handleData] with the same payload come to, on a
    Device [d] that the first call leaves as [d1].  The first call
    publishes one DATA frame with the metrics that changed, and none
    exactly when no metric it visits takes a value; it does publish when
    the payload carries, decoded or as it is, a value the filter accepts
    for a GET metric the index holds.  The second call, whenever it
    comes, publishes nothing. *)
Definition one_frame_then_none
    (parseValue : Js.value -> Metric -> string -> string -> Res Js.value)
    (parseTimeStamp : Js.value -> Metric -> string -> string -> Js.value)
    (obj : gmap string Js.value) (parseVals : bool) (d d1 : Device) : Prop :=
  exists changed,
    effects d1
    = effects d
      ++ match changed with
         | [] => []
         | _ :: _ => [Publish (DDATA changed)]
         end ++ [RefreshDeathTimer]
    /\ (changed = []
        <-> forall addr path,
              (addr, path) ∈ visited obj (_metrics d) ->
              path_verdict parseValue obj parseVals (_payloadFormat d)
                (_delimiter d) (_metrics d) addr path = Ok None)
    /\ (forall addr raw paths path i m props v,
          obj !! addr = Some raw ->
          addrPathIndex (_metrics d) !! addr = Some paths ->
          paths !! path = Some i ->
          array (_metrics d) !! i = Some m ->
          properties m = Some props -> method_is_GET props = Ok true ->
          (parseVals = true ->
           has_path props = true \/ length (keys obj) = 1) ->
          (if parseVals
           then parseValue raw m (_payloadFormat d) (_delimiter d)
           else Ok raw) = Ok v ->
          change_filter (value m) v = true ->
          changed <> [])
    /\ forall t,
         _handleData parseValue parseTimeStamp obj parseVals (set_clock t d1)
         = Return tt
             (set_effects (effects d1 ++ [RefreshDeathTimer]) (set_clock t d1)).

(** A Device that speaks JSON, with one metric whose value is the root
    of the payload: as it is constructed, once connected, and once its
    BIRTH is acknowledged. *)
Definition sample_tag_json : Tag :=
  mkTag (Some "Spindle/Speed") Js.Undefined "uInt32" (Js.Bool true)
    (Js.Str "GET") (Js.Str "spindle/speed") (Js.Str "$") Js.Undefined
    Js.Undefined Js.Undefined Js.Undefined Js.Undefined Js.Undefined.

Definition sample_json_options : Options :=
  mkOptions "mill1" (Js.Num (Js.Fin 1000)) "JSON" None
    [rehashTag sample_tag_json].

Definition sample_json_device : Device :=
  Eval vm_compute in
    match new_S7Device sample_json_options (Some sample_conf) 5 with
    | Ok d => d
    | Throw _ => sample_device
    end.

Definition sample_json_connected : Device :=
  Eval vm_compute in final (_deviceConnected sample_json_device).

Definition sample_json_alive : Device :=
  Eval vm_compute in final (birthPublished sample_json_connected).

(** A payload with a new value for [Spindle/Speed], and the Device,
    alive, after it has decoded and handled the payload at time 8. *)
Definition sample_payload : gmap string Js.value :=
  {[ "spindle/speed" := Js.Num (Js.Fin 42) ]}.

Definition sample_after_data : Device :=
  Eval vm_compute in
    final (_handleData sample_parseValue sample_parseTimeStamp sample_payload
             true (set_clock 8 sample_json_alive)).

(** The metric a DCMD metric stands for once it has a name: the metric
    itself when it comes with one, and otherwise the metric with the
    name the store has for its alias. *)
Definition stands_for (s : Metrics) (pm rm : Metric) : Prop :=
  (no_name pm = false /\ rm = pm)
  \/ (no_name pm = true
      /\ exists a found,
           alias pm = Some a /\ getByAlias a s = Ok (Some found)
           /\ rm = with_name_alias (name found) a pm).

(** What [_publishDData] sends for the metrics [ms] on the Device [d],
    whose store is [s] by then. *)
Definition published (d : Device) (s : Metrics) (ms : list (option Metric))
  : list Effect :=
  if isAlive d then [Publish (DDATA ms)]
  else if _isConnected d then [Publish (DBIRTH (array s))]
  else [Log LogBirthNotConnected].

(** The sample Device with two metrics once the Sparkplug node has
    given the aliases 1 to [Device Control/Polling Interval] and 7 to
    [Spindle/Speed], and a DCMD metric for each that carries the alias
    and no name. *)
Definition sample_alive_aliased : Device :=
  Eval vm_compute in
    match (s ← setAlias 0 1 (_metrics sample_alive_two); setAlias 3 7 s) with
    | Ok s => set_metrics s sample_alive_two
    | Throw _ => sample_alive_two
    end.


Definition sample_alias_speed : Metric :=
  mkMetric None (Some 7%Z) "uInt32" (Js.Num (Js.Fin 1200)) Js.Undefined None
    None None.


Definition sample_speed_aliased : Metric :=
  Eval vm_compute in with_alias 7 sample_metric.

(** That Device after the loop of [_handleDCmd] over the command for
    [Spindle/Speed] by alias and the command for [Spindle/Load]. *)
Definition sample_two_logged : Device :=
  Eval vm_compute in
    final (foldM (handleDCmdMetric (H := sample_prims))
             [sample_alias_speed; sample_write_load] [] sample_alive_aliased).





(** The second default metric, [Device Control/Reboot]. *)
Definition sample_reboot : Metric :=
  Eval vm_compute in
    default sample_polling (defaultMetrics (Js.Num (Js.Fin 1000)) 5 !! 1).


(** [metric.name || ""], the key of a metric in the name index. *)
Definition index_name (m : Metric) : string := default "" (name m).

(** The position the name index keeps for [k] after the loop of
    [#buildIndices] has walked [rest], whose first metric sits at
    position [i]: the last one whose key is [k], or what was found
    before. *)
Fixpoint last_named (k : string) (i : nat) (rest : list Metric)
    (found : option nat) : option nat :=
  match rest with
  | [] => found
  | m :: rest' =>
      last_named k (S i) rest'
        (if String.eqb (index_name m) k then Some i else found)
  end.

(** The Device that speaks JSON, connected and not alive, after it has
    decoded and handled the payload at time 8. *)
Definition sample_connected_data : Device :=
  Eval vm_compute in
    final (_handleData sample_parseValue sample_parseTimeStamp sample_payload
             true (set_clock 8 sample_json_connected)).

(** ** The metric store *)

Lemma Res_bind_Ok {A B : Type} (a : A) (f : A -> Res B) : Ok a ≫= f = f a.
Proof. reflexivity. Qed.

Lemma strict_eq_Null (v : Js.value) :
  Js.strict_eq v Js.Null = bool_decide (v = Js.Null).
Proof. destruct v as [| |b|[z| |]|z|s|z|o|a]; reflexivity. Qed.

Lemma member_own {V : Type} (o : gmap string V) (k : string) (v : V) :
  o !! k = Some v -> member o k = Own v.
Proof. intros Hk. unfold member. by rewrite Hk. Qed.

Lemma member_not_own {V : Type} (o : gmap string V) (k : string) :
  o !! k = None -> forall v, member o k <> Own v.
Proof. intros Hk v. unfold member. rewrite Hk. by destruct (bool_decide _). Qed.

Lemma position_not_own (o : gmap string nat) (k : string) :
  o !! k = None -> position (member o k) = None.
Proof. intros Hk. unfold member. rewrite Hk. by destruct (bool_decide _). Qed.

Lemma member_absent {V : Type} (o : gmap string V) (k : string) :
  o !! k = None -> k ∉ Object_prototype -> member o k = Absent.
Proof.
  intros Hk Hproto. unfold member. rewrite Hk.
  by rewrite bool_decide_eq_false_2.
Qed.

Lemma addrPath_lookup_held (s : Metrics) (addr path : string)
    (paths : gmap string nat) (i : nat) :
  addrPathIndex s !! addr = Some paths -> paths !! path = Some i ->
  addrPath_lookup addr path s = Ok (Some i).
Proof.
  intros Ha Hp. unfold addrPath_lookup.
  by rewrite (member_own _ _ _ Ha), (member_own _ _ _ Hp).
Qed.

Lemma member_Own_inv {V : Type} (o : gmap string V) (k : string) (v : V) :
  member o k = Own v -> o !! k = Some v.
Proof.
  unfold member. destruct (o !! k); [by intros [= ->]|].
  by destruct (bool_decide _).
Qed.

Lemma member_Absent_inv {V : Type} (o : gmap string V) (k : string) :
  member o k = Absent -> o !! k = None.
Proof. unfold member. by destruct (o !! k). Qed.

Lemma assign_resolved (i : nat) (m : Metric) (f : Metric -> Metric)
    (s : Metrics) :
  array s !! i = Some m ->
  assign (Some i) f s = Ok (replaced i (f m) s).
Proof. intros Hm. unfold assign. rewrite Hm. reflexivity. Qed.

Lemma replaced_lookup (i : nat) (m m' : Metric) (s : Metrics) :
  array s !! i = Some m -> array (replaced i m' s) !! i = Some m'.
Proof.
  intros Hm. simpl. apply list_lookup_insert_eq.
  eapply lookup_lt_Some, Hm.
Qed.

Lemma replaced_replaced (i : nat) (m m' : Metric) (s : Metrics) :
  replaced i m' (replaced i m s) = replaced i m' s.
Proof. unfold replaced. simpl. by rewrite list_insert_insert_eq. Qed.

(** A setter whose index expression answers [i], before and after the
    array is written, leaves the updated metric at [i]. *)
Lemma set_at_resolved (idx : Metrics -> Res (option nat)) (i : nat)
    (m : Metric) (v timestamp : Js.value) (now : Z) (s : Metrics) :
  (forall m', idx (replaced i m' s) = Ok (Some i)) ->
  idx s = Ok (Some i) ->
  array s !! i = Some m ->
  set_at idx v timestamp now s
  = Ok (Some (updated v timestamp now m),
        replaced i (updated v timestamp now m) s).
Proof.
  intros Hidx Hs Hm. unfold set_at.
  rewrite Hs, Res_bind_Ok, (assign_resolved i m), Res_bind_Ok by done.
  rewrite Hidx, Res_bind_Ok.
  rewrite (assign_resolved i (with_value v m)), Res_bind_Ok
    by by eapply replaced_lookup.
  rewrite replaced_replaced, Hidx, Res_bind_Ok.
  rewrite (assign_resolved i (with_timestamp (timestamp_or_now timestamp now)
                                (with_value v m))), Res_bind_Ok
    by by eapply replaced_lookup.
  rewrite replaced_replaced, Hidx, Res_bind_Ok.
  unfold at_index. simpl.
  rewrite list_lookup_insert_eq by by eapply lookup_lt_Some.
  rewrite strict_eq_Null. reflexivity.
Qed.

(** A setter whose index expression answers [undefined], or an index
    past the array, throws before anything is written. *)
Lemma set_at_unresolved (idx : Metrics -> Res (option nat))
    (v timestamp : Js.value) (now : Z) (s : Metrics) :
  idx s = Ok None ->
  set_at idx v timestamp now s = Throw Js.TypeError.
Proof. intros Hs. unfold set_at. rewrite Hs. reflexivity. Qed.

(** C8, as the code has it: each of the four setters, on a key that
    resolves to the metric [m] at position [i], writes the value, the
    timestamp (the one given when it is truthy, the current time when it
    is absent, zero or otherwise falsy) and the null flag (set exactly
    when the value is null), leaves every other field of [m] and every
    other metric as they were, and returns the metric it wrote. *)
Theorem setters_write_value_timestamp_isNull
    (s : Metrics) (i : nat) (m : Metric) (v timestamp : Js.value) (now : Z) :
  array s !! i = Some m ->
  let m' := updated v timestamp now m in
  setValueByIndex i v timestamp now s = Ok (Some m', replaced i m' s)
  /\ (forall n, nameIndex s !! n = Some i ->
        setValueByName n v timestamp now s = Ok (Some m', replaced i m' s))
  /\ (forall a, aliasIndex s !! a = Some i ->
        setValueByAlias a v timestamp now s = Ok (Some m', replaced i m' s))
  /\ (forall addr path paths,
        addrPathIndex s !! addr = Some paths -> paths !! path = Some i ->
        setValueByAddrPath addr path v timestamp now s
        = Ok (Some m', replaced i m' s)).
Proof.
  intros Hm m'. repeat split.
  - by apply set_at_resolved.
  - intros n Hn.
    apply set_at_resolved; simpl; try done; by rewrite (member_own _ _ _ Hn).
  - intros a Ha. apply set_at_resolved; simpl; try done; by rewrite Ha.
  - intros addr path paths Ha Hp.
    apply set_at_resolved; try done; intros;
      by apply (addrPath_lookup_held _ _ _ paths).
Qed.


(** C8 at the Polling Interval metric of a fresh store. *)
Lemma setters_write_value_timestamp_isNull_witness :
  array sample_store !! 0 = Some sample_polling
  /\ setValueByName "Device Control/Polling Interval" (Js.Num (Js.Fin 2500))
       Js.Undefined 9 sample_store
     = Ok (Some (updated (Js.Num (Js.Fin 2500)) Js.Undefined 9 sample_polling),
           replaced 0 (updated (Js.Num (Js.Fin 2500)) Js.Undefined 9
                         sample_polling) sample_store).
Proof.
  split; [vm_compute; reflexivity|].
  refine (proj1 (proj2 (setters_write_value_timestamp_isNull sample_store 0
                          sample_polling (Js.Num (Js.Fin 2500)) Js.Undefined 9
                          _)) _ _);
    vm_compute; reflexivity.
Defined.

(** C8 as it is worded fails on a timestamp that is given and is zero:
    the setter writes the current time, not the timestamp it was given. *)
Lemma setters_given_timestamp_zero_counterexample :
  exists s' m',
    setValueByIndex 0 (Js.Num (Js.Fin 2500)) (Js.Num (Js.Fin 0)) 9 sample_store
    = Ok (Some m', s')
    /\ timestamp m' = Js.Num (Js.Fin 9)
    /\ timestamp m' <> Js.Num (Js.Fin 0).
Proof.
  eexists. eexists. split; [vm_compute; reflexivity|].
  split; [reflexivity|]. discriminate.
Qed.

(** C10, as the code has it: on a key that no index holds, [getByName]
    and [getByAlias] answer [undefined] without an error, while the
    setters by name and by alias and [getByAddress] throw a TypeError;
    [getByAddrPath] and [setValueByAddrPath] throw a TypeError unless
    the address names a member of [Object.prototype], and for such an
    address and the path [length] they reach the metric at the position
    that the number of parameters of the built-in function gives. *)
Theorem lookups_on_unregistered_keys
    (s : Metrics) (n : string) (a : Z) (addr path : string)
    (v timestamp : Js.value) (now : Z) :
  nameIndex s !! n = None ->
  aliasIndex s !! a = None ->
  addrIndex s !! addr = None ->
  addrPathIndex s !! addr = None ->
  getByName n s = Ok None
  /\ getByAlias a s = Ok None
  /\ setValueByName n v timestamp now s = Throw Js.TypeError
  /\ setValueByAlias a v timestamp now s = Throw Js.TypeError
  /\ getByAddress addr s = Throw Js.TypeError
  /\ (addr ∉ Object_prototype ->
      getByAddrPath addr path s = Throw Js.TypeError
      /\ setValueByAddrPath addr path v timestamp now s = Throw Js.TypeError)
  /\ (addr ∈ Object_prototype ->
      getByAddrPath addr "length" s = Ok (at_index s (inherited_length addr))
      /\ forall i m,
           inherited_length addr = Some i -> array s !! i = Some m ->
           setValueByAddrPath addr "length" v timestamp now s
           = Ok (Some (updated v timestamp now m),
                 replaced i (updated v timestamp now m) s)).
Proof.
  intros Hn Ha Haddr Hpath.
  assert (forall (V : Type) (o : gmap string V) (k : string),
            o !! k = None -> k ∈ Object_prototype -> member o k = Inherited k)
    as Hinh.
  { intros V o k Hk Hproto. unfold member. rewrite Hk.
    by rewrite bool_decide_eq_true_2. }
  assert (forall s', addrPathIndex s' = addrPathIndex s ->
                     addr ∈ Object_prototype ->
                     addrPath_lookup addr "length" s'
                     = Ok (inherited_length addr)) as Hlen.
  { intros s' Hs' Hproto. unfold addrPath_lookup.
    rewrite Hs', (Hinh _ _ _ Hpath Hproto). unfold inherited_member.
    destruct (String.eqb_spec addr "__proto__") as [->|Hne]; done. }
  split; [|split; [|split; [|split; [|split; [|split]]]]].
  - unfold getByName. by rewrite (position_not_own _ _ Hn).
  - unfold getByAlias. by rewrite Ha.
  - apply set_at_unresolved. by rewrite (position_not_own _ _ Hn).
  - apply set_at_unresolved. by rewrite Ha.
  - unfold getByAddress, member. rewrite Haddr. by destruct (bool_decide _).
  - intros Hproto.
    unfold getByAddrPath, setValueByAddrPath, set_at, addrPath_lookup.
    by rewrite (member_absent _ _ Hpath Hproto).
  - intros Hproto. split.
    + unfold getByAddrPath. by rewrite Hlen.
    + intros i m Hi Hm. apply set_at_resolved; try done.
      * intros m'. by rewrite Hlen, Hi.
      * by rewrite Hlen, Hi.
Qed.

(** C10 on a fresh store, for keys it has never seen. *)
Lemma lookups_on_unregistered_keys_witness :
  getByName "Spindle/Speed" sample_store = Ok None
  /\ getByAlias 7 sample_store = Ok None
  /\ setValueByName "Spindle/Speed" Js.Null Js.Undefined 9 sample_store
     = Throw Js.TypeError
  /\ setValueByAlias 7 Js.Null Js.Undefined 9 sample_store = Throw Js.TypeError
  /\ getByAddress "DB1,X0.0" sample_store = Throw Js.TypeError
  /\ getByAddrPath "DB1,X0.0" "0" sample_store = Throw Js.TypeError
  /\ setValueByAddrPath "DB1,X0.0" "0" Js.Null Js.Undefined 9 sample_store
     = Throw Js.TypeError.
Proof.
  destruct (lookups_on_unregistered_keys sample_store "Spindle/Speed" 7
              "DB1,X0.0" "0" Js.Null Js.Undefined 9)
    as (H1 & H2 & H3 & H4 & H5 & H6 & _);
    try (vm_compute; reflexivity).
  destruct H6 as [H6 H7]; [apply (bool_decide_unpack _); vm_compute; exact I|].
  repeat split; assumption.
Defined.

(** C10 as it is worded fails twice.  For an alias that was never set
    [getByAlias] answers [undefined], and throws nothing.  And for the
    unregistered address [constructor] and the path [length] nothing is
    thrown either: [getByAddrPath] answers the metric at position 1, the
    number of parameters of [Object], and [setValueByAddrPath]
    overwrites it. *)
Lemma unregistered_keys_counterexample :
  (aliasIndex sample_store !! 7%Z = None
   /\ getByAlias 7 sample_store = Ok None)
  /\ addrIndex sample_store !! "constructor" = None
  /\ addrPathIndex sample_store !! "constructor" = None
  /\ getByAddrPath "constructor" "length" sample_store = Ok (Some sample_reboot)
  /\ setValueByAddrPath "constructor" "length" (Js.Bool true) Js.Undefined 9
       sample_store
     = Ok (Some (updated (Js.Bool true) Js.Undefined 9 sample_reboot),
           replaced 1 (updated (Js.Bool true) Js.Undefined 9 sample_reboot)
             sample_store).
Proof. repeat split; vm_compute; reflexivity. Qed.

(** *** The address index *)

Lemma indexMetric_addrIndex (addr : string) (i : nat) (m : Metric)
    (s s' : Metrics) :
  indexMetric i m s = Ok s' ->
  array s' = array s
  /\ addrIndex s' !! addr
     = if holds_address addr m
       then Some (default [] (addrIndex s !! addr) ++ [i; i])
       else addrIndex s !! addr.
Proof.
  unfold indexMetric, holds_address.
  destruct (properties m) as [props|]; [|intros [= <-]; done].
  destruct (props !! "address") as [address|]; [|intros [= <-]; done].
  destruct (props !! "path") as [path|]; [|intros [= <-]; done].
  destruct (method_is_GET props) as [[|]|e]; simpl; [| |done].
  - set (key := Js.to_key (pvalue address)).
    destruct (member (addrIndex s) key) as [l|k|] eqn:Hmem; simpl; [|done|];
      (destruct (member (addrPathIndex s) key) as [paths|k|]; simpl;
       [|done|]);
      intros [= <-]; simpl; (split; [done|]);
      (destruct (String.eqb_spec key addr) as [<-|Hne];
       [rewrite lookup_insert_eq|by rewrite lookup_insert_ne]).
    1, 2: by rewrite (member_Own_inv _ _ _ Hmem).
    1, 2: by rewrite (member_Absent_inv _ _ Hmem).
  - intros [= <-]. done.
Qed.

Lemma buildIndices_from_addrIndex (addr : string) (rest : list Metric) :
  forall (i : nat) (s s' : Metrics),
    buildIndices_from i rest s = Ok s' ->
    array s' = array s
    /\ addrIndex s' !! addr
       = match pushes addr i rest with
         | [] => addrIndex s !! addr
         | l => Some (default [] (addrIndex s !! addr) ++ l)
         end.
Proof.
  induction rest as [|m rest IH]; intros i s s'; simpl.
  - intros [= <-]. done.
  - destruct (indexMetric i m s) as [s1|e] eqn:Hstep; [|done].
    rewrite Res_bind_Ok. intros Hrest.
    destruct (indexMetric_addrIndex addr _ _ _ _ Hstep) as [Harr Hidx].
    destruct (IH _ _ _ Hrest) as [Harr' Hidx'].
    split; [congruence|]. rewrite Hidx', Hidx.
    destruct (holds_address addr m); simpl.
    + destruct (pushes addr (S i) rest); simpl; [done|].
      by rewrite <- app_assoc.
    + done.
Qed.

Lemma pushes_app (addr : string) (l1 l2 : list Metric) :
  forall i : nat,
    pushes addr i (l1 ++ l2)
    = pushes addr i l1 ++ pushes addr (i + length l1) l2.
Proof.
  induction l1 as [|m l1 IH]; intros i; simpl.
  - by rewrite Nat.add_0_r.
  - rewrite IH, <- app_assoc. do 3 f_equal. lia.
Qed.

Lemma pushes_none (addr : string) (l : list Metric) :
  (forall m, m ∈ l -> holds_address addr m = false) ->
  forall i : nat, pushes addr i l = [].
Proof.
  induction l as [|m l IH]; intros Hl i; simpl; [done|].
  rewrite (Hl m) by constructor. simpl. apply IH.
  intros m' Hm'. apply Hl. by constructor.
Qed.







(** ** The configuration rehasher *)

(** C3 fails on the code.  [rehashTag] strips the suffix first and reads
    the endianness off the stripped type: for every type of
    [sparkplugDataType] declared with a BE or an LE suffix the type comes
    out stripped, and the endianness is null, not 4321 or 1234. *)
Theorem rehashTag_suffix_gives_null_endianness (tag : Tag) :
  Forall (fun base =>
            Forall (fun suffix =>
                      let m := rehashTag (with_tag_type (base +:+ suffix) tag) in
                      type m = base
                      /\ endianness_of m = Some (mkProperty Js.Null "uInt16"))
                   ["BE"; "LE"])
         sparkplugDataTypes.
Proof.
  unfold sparkplugDataTypes.
  repeat (apply Forall_cons; split);
    try apply Forall_nil; split; vm_compute; reflexivity.
Qed.

(** ** Fixed-layout buffers *)

(** C5, as the code has it: a uInt32 read with PDP endianness at offset
    0 swaps the two bytes of each 16-bit word and reads the four bytes
    big-endian, so that the bytes a b c d give the value b a d c; the
    buffer keeps the swapped bytes.  From 01 02 03 04 the value is
    0x02010403. *)
Theorem parseValFromBuffer_uInt32_PDP `{BufferPrims} :
  (forall (a b c d : byte) (rest : list byte) (bit : option nat),
     parseValFromBuffer "uInt32" (Js.Num (Js.Fin PDPEndian)) 0
       (a :: b :: c :: d :: rest) bit
     = Ok (Js.Num (Js.Fin (byte_val b * 2 ^ 24 + byte_val a * 2 ^ 16
                           + byte_val d * 2 ^ 8 + byte_val c)),
           b :: a :: d :: c :: rest))
  /\ parseValFromBuffer "uInt32" (Js.Num (Js.Fin PDPEndian)) 0
       [x01; x02; x03; x04] None
     = Ok (Js.Num (Js.Fin 0x02010403), [x02; x01; x04; x03]).
Proof.
  split; [|reflexivity].
  intros a b c d rest bit.
  unfold parseValFromBuffer.
  set (fullType := if bool_decide _ then _ else _).
  vm_compute in fullType. subst fullType.
  cbn -[byte_val Z.mul Z.add Z.pow].
  unfold read_swapped, subarray, swap16, num, readUIntBE, bytes_at, be_uint.
  cbn -[byte_val Z.mul Z.add Z.pow].
  rewrite take_0. cbn -[byte_val Z.mul Z.add Z.pow].
  rewrite decide_True by lia. cbn -[byte_val Z.mul Z.add Z.pow].
  rewrite drop_0. do 4 f_equal.
  change (2 ^ 24)%Z with 16777216%Z. change (2 ^ 16)%Z with 65536%Z.
  change (2 ^ 8)%Z with 256%Z. lia.
Qed.

(** C5 as it is worded fails: the value read from 01 02 03 04 is not
    0x03040102, whatever the platform. *)
Lemma parseValFromBuffer_uInt32_PDP_counterexample :
  ~ (forall prims : BufferPrims,
       exists buf,
         @parseValFromBuffer prims "uInt32" (Js.Num (Js.Fin PDPEndian)) 0
           [x01; x02; x03; x04] None
         = Ok (Js.Num (Js.Fin 0x03040102), buf)).
Proof.
  intros Hclaim. destruct (Hclaim sample_prims) as [buf Hbuf].
  vm_compute in Hbuf. discriminate.
Qed.

(** ** The Device *)

Lemma sample_device_built :
  new_S7Device sample_options (Some sample_conf) 5 = Ok sample_device.
Proof. vm_compute. reflexivity. Qed.

Lemma M_bind_unfold {A B : Type} (m : M A) (f : A -> M B) (d : Device) :
  (m ≫= f) d
  = match m d with
    | Return a d' => f a d'
    | Raise e d' => Raise e d'
    end.
Proof. reflexivity. Qed.

Lemma M_ret_unfold {A : Type} (a : A) (d : Device) :
  (mret a : M A) d = Return a d.
Proof. reflexivity. Qed.

(** C7, as the code has it: on a connected Device a driver close
    publishes a DEATH and clears both flags, while the expiry of the
    watchdog publishes a DEATH and clears [isAlive] only, the Device
    staying connected. *)
Theorem death_on_close_and_on_watchdog `{BufferPrims}
    (parseValue : Js.value -> Metric -> string -> string -> Res Js.value)
    (parseTimeStamp : Js.value -> Metric -> string -> string -> Js.value)
    (d : Device) :
  _isConnected d = true ->
  (exists d1,
     handle parseValue parseTimeStamp DriverClose d = Return tt d1
     /\ effects d1
        = effects d ++ [Log (LogDisconnected (_name d)); Publish DDEATH]
     /\ isAlive d1 = false /\ _isConnected d1 = false)
  /\ (exists d2,
        handle parseValue parseTimeStamp WatchdogExpired d = Return tt d2
        /\ effects d2 = effects d ++ [Publish DDEATH]
        /\ isAlive d2 = false /\ _isConnected d2 = true).
Proof.
  intros Hc. split; eexists; (split; [|split; [|split]]).
  - simpl. unfold _deviceDisconnected, publishDDeath, log, emit, modify, gets.
    rewrite !M_bind_unfold. simpl. rewrite Hc. reflexivity.
  - simpl. by rewrite <- app_assoc.
  - reflexivity.
  - reflexivity.
  - simpl. unfold publishDDeath, emit, modify, gets.
    rewrite !M_bind_unfold. simpl. rewrite Hc. reflexivity.
  - reflexivity.
  - reflexivity.
  - simpl. exact Hc.
Qed.

(** C7 on the sample Device, alive and connected. *)
Lemma death_on_close_and_on_watchdog_witness :
  (exists d1,
     handle (H := sample_prims) sample_parseValue sample_parseTimeStamp
       DriverClose sample_alive = Return tt d1
     /\ effects d1
        = effects sample_alive
          ++ [Log (LogDisconnected (_name sample_alive)); Publish DDEATH]
     /\ isAlive d1 = false /\ _isConnected d1 = false)
  /\ (exists d2,
        handle (H := sample_prims) sample_parseValue sample_parseTimeStamp
          WatchdogExpired sample_alive = Return tt d2
        /\ effects d2 = effects sample_alive ++ [Publish DDEATH]
        /\ isAlive d2 = false /\ _isConnected d2 = true).
Proof.
  refine (death_on_close_and_on_watchdog (H := sample_prims) sample_parseValue
            sample_parseTimeStamp sample_alive _).
  reflexivity.
Defined.

(** C7 as it is worded fails on the watchdog: after its expiry on a
    Device that is alive and connected, [isConnected] is still set. *)
Lemma watchdog_keeps_isConnected_counterexample :
  isAlive sample_alive = true /\ _isConnected sample_alive = true
  /\ exists d2,
       handle (H := sample_prims) sample_parseValue sample_parseTimeStamp
         WatchdogExpired sample_alive = Return tt d2
       /\ _isConnected d2 = true.
Proof.
  split; [reflexivity|]. split; [reflexivity|].
  eexists. split; [vm_compute; reflexivity|]. reflexivity.
Qed.

(** *** The lifecycle invariant *)

Lemma frames_app (d : Device) (es : list Effect) :
  frames (set_effects (effects d ++ es) d) = frames d ++ omap frame_of es.
Proof. unfold frames. simpl. apply omap_app. Qed.

Lemma births_first_app (fs gs : list Frame) :
  births_first (fs ++ gs)
  = births_first fs && (existsb is_birth fs || births_first gs).
Proof.
  induction fs as [|[ms|ms|] fs IH]; simpl; done.
Qed.

Lemma births_first_precedes (fs pre post : list Frame)
    (ms : list (option Metric)) :
  births_first fs = true -> fs = pre ++ DDATA ms :: post ->
  exists b, DBIRTH b ∈ pre.
Proof.
  revert fs. induction pre as [|[b|ms'|] pre IH]; intros fs Hfs ->; simpl in *.
  - done.
  - exists b. constructor.
  - done.
  - destruct (IH _ Hfs eq_refl) as [b Hb]. exists b. by constructor.
Qed.

Lemma preserves_ret {A : Type} (a : A) : preserves (mret a).
Proof. intros d Hd. exact Hd. Qed.

Lemma preserves_raise {A : Type} (e : Js.error) : preserves (raise (A := A) e).
Proof. intros d Hd. exact Hd. Qed.

Lemma preserves_gets {A : Type} (f : Device -> A) : preserves (gets f).
Proof. intros d Hd. exact Hd. Qed.

Lemma preserves_lift {A : Type} (r : Res A) : preserves (lift r).
Proof. destruct r; intros d Hd; exact Hd. Qed.

Lemma preserves_bind {A B : Type} (m : M A) (f : A -> M B) :
  preserves m -> (forall a, preserves (f a)) -> preserves (m ≫= f).
Proof.
  intros Hm Hf d Hd. rewrite M_bind_unfold.
  specialize (Hm d Hd). destruct (m d) as [a d'|e d']; simpl in *.
  - by apply Hf.
  - exact Hm.
Qed.

Lemma preserves_modify (f : Device -> Device) :
  neutral f -> preserves (modify f).
Proof.
  intros Hf d [Hd1 Hd2]. destruct (Hf d) as (Ha & Hb & He).
  unfold lifecycle_inv, frames in *. simpl. rewrite Ha, Hb, He. done.
Qed.

Lemma preserves_emit (e : Effect) :
  (forall ms, e <> Publish (DDATA ms)) -> preserves (emit e).
Proof.
  intros He d [Hd1 Hd2]. unfold lifecycle_inv, emit, modify. simpl.
  rewrite frames_app. simpl. split.
  - rewrite births_first_app, Hd1. simpl.
    destruct e as [[b|ms|]| | | | | | | | |]; simpl;
      rewrite ?orb_true_r; try done.
    by destruct (He ms).
  - intros Hal. rewrite existsb_app, (Hd2 Hal). done.
Qed.

Lemma preserves_from_metrics {A : Type} (f : Metrics -> Res A) :
  preserves (from_metrics f).
Proof.
  unfold from_metrics. apply preserves_bind; [apply preserves_gets|].
  intros s. apply preserves_lift.
Qed.

Lemma preserves_on_metrics {A : Type} (f : Metrics -> Res (A * Metrics)) :
  preserves (on_metrics f).
Proof.
  unfold on_metrics. apply preserves_bind; [apply preserves_gets|].
  intros s. apply preserves_bind; [apply preserves_lift|].
  intros r. apply preserves_bind; [|intros; apply preserves_ret].
  apply preserves_modify. intros d. done.
Qed.

Lemma preserves_foldM {A B : Type} (f : B -> A -> M B) (l : list A) :
  (forall b x, preserves (f b x)) -> forall b, preserves (foldM f l b).
Proof.
  intros Hf. induction l as [|x l IH]; intros b; simpl.
  - apply preserves_ret.
  - apply preserves_bind; [apply Hf|]. intros b'. apply IH.
Qed.

Lemma preserves_forEach {A : Type} (f : A -> M unit) (l : list A) :
  (forall x, preserves (f x)) -> preserves (forEach f l).
Proof.
  intros Hf. induction l as [|x l IH]; simpl.
  - apply preserves_ret.
  - apply preserves_bind; [apply Hf|]. intros _. apply IH.
Qed.

Lemma preserves_mapM {A B : Type} (f : A -> M B) (l : list A) :
  (forall x, preserves (f x)) -> preserves (mapM f l).
Proof.
  intros Hf. induction l as [|x l IH]; simpl.
  - apply preserves_ret.
  - apply preserves_bind; [apply Hf|]. intros y.
    apply preserves_bind; [apply IH|]. intros ys. apply preserves_ret.
Qed.

Lemma preserves_publishDBirth (readRequired : bool) :
  preserves (_publishDBirth readRequired).
Proof.
  intros d [Hd1 Hd2]. unfold _publishDBirth, readMetricsOnce, log, emit, modify, gets.
  rewrite !M_bind_unfold. simpl.
  destruct (_isConnected d); simpl.
  - destruct readRequired; simpl; unfold lifecycle_inv, frames; simpl;
      rewrite <- ?app_assoc, !omap_app; simpl;
      rewrite !births_first_app, !existsb_app; fold (frames d);
      rewrite Hd1; simpl; rewrite !orb_true_r; done.
  - unfold lifecycle_inv, frames. simpl. rewrite omap_app. simpl.
    rewrite app_nil_r. done.
Qed.

Lemma preserves_publishDData (metrics : list (option Metric)) :
  preserves (_publishDData metrics).
Proof.
  intros d Hd. unfold _publishDData. rewrite M_bind_unfold. simpl.
  destruct (isAlive d) eqn:Halive.
  - destruct Hd as [Hd1 Hd2]. unfold emit, modify. simpl.
    unfold lifecycle_inv. rewrite frames_app. simpl.
    rewrite births_first_app, existsb_app, Hd1, Hd2 by by left. done.
  - by apply preserves_publishDBirth.
Qed.

Lemma preserves_publishDDeath : preserves publishDDeath.
Proof.
  intros d [Hd1 Hd2]. unfold publishDDeath, emit, modify, gets.
  rewrite !M_bind_unfold. simpl.
  destruct (_isConnected d); simpl; [|done].
  unfold lifecycle_inv, frames. simpl. rewrite omap_app. simpl.
  fold (frames d). rewrite births_first_app, existsb_app, Hd1. simpl.
  split; [by rewrite orb_true_r|].
  intros [Hal|Hp]; [done|]. rewrite Hd2 by by right. done.
Qed.

Lemma preserves_birthPublished :
  preserves (n ← gets birthsPending;
             match n with
             | O => mret tt
             | S _ => birthPublished
             end).
Proof.
  intros d Hd. rewrite M_bind_unfold. simpl.
  destruct (birthsPending d) as [|n] eqn:Hn; simpl; [exact Hd|].
  destruct Hd as [Hd1 Hd2].
  unfold lifecycle_inv, frames. simpl. fold (frames d).
  split; [done|]. intros _. apply Hd2. right. by rewrite Hn.
Qed.

Ltac preserve :=
  repeat first
    [ apply preserves_ret | apply preserves_raise | apply preserves_gets
    | apply preserves_lift | apply preserves_from_metrics
    | apply preserves_on_metrics | apply preserves_publishDBirth
    | apply preserves_publishDData | apply preserves_publishDDeath
    | apply preserves_birthPublished
    | apply preserves_foldM; intros ? ?
    | apply preserves_forEach; intros ?
    | apply preserves_mapM; intros ?
    | apply preserves_modify; intros ?; done
    | apply preserves_emit; intros ?; discriminate
    | apply preserves_bind; [|intros ?]
    | match goal with
      | |- preserves (match ?x with _ => _ end) => destruct x
      | |- preserves (let _ := _ in _) => cbv zeta
      end ].

Lemma preserves_handle `{BufferPrims}
    (parseValue : Js.value -> Metric -> string -> string -> Res Js.value)
    (parseTimeStamp : Js.value -> Metric -> string -> string -> Js.value)
    (ev : Event) :
  preserves (handle parseValue parseTimeStamp ev).
Proof.
  destruct ev; unfold handle.
  - unfold _deviceConnected, log. preserve.
  - unfold _deviceDisconnected, log. preserve.
  - unfold _handleData, handlePath, _refreshDeathTimer. preserve.
  - preserve.
  - unfold readyTick, subscribeToMetricChanges, log. preserve.
  - preserve.
  - unfold writeCallback, written, log, _refreshDeathTimer. preserve.
  - unfold configRead, log. preserve.
  - preserve.
  - unfold _handleDCmd, handleDCmdMetric, writeMetrics, reboot, updateConfig,
      subscribeToMetricChanges, _stopMetricSubscription, log. preserve.
  - unfold stop, _stopMetricSubscription, log. preserve.
Qed.

Lemma lifecycle_inv_run `{BufferPrims}
    (parseValue : Js.value -> Metric -> string -> string -> Res Js.value)
    (parseTimeStamp : Js.value -> Metric -> string -> string -> Js.value)
    (events : list (Z * Event)) :
  forall d, lifecycle_inv d ->
            lifecycle_inv (run parseValue parseTimeStamp d events).
Proof.
  induction events as [|te events IH]; intros d Hd; simpl; [done|].
  apply IH. unfold step. apply preserves_handle.
  destruct Hd as [Hd1 Hd2]. split; done.
Qed.

(** C2, as the code has it.  When [_publishDData] is called on a Device
    that is not alive, no DATA frame is published; a BIRTH is published
    in its place when the Device is connected, and nothing but a log line
    when it is not.  The Device becomes alive when a published BIRTH is
    acknowledged.  In every run of a Device that starts not alive, with
    no BIRTH awaiting acknowledgement and no frame published, each DATA
    frame has a BIRTH frame before it. *)
Theorem birth_precedes_data `{BufferPrims}
    (parseValue : Js.value -> Metric -> string -> string -> Res Js.value)
    (parseTimeStamp : Js.value -> Metric -> string -> string -> Js.value) :
  (forall d metrics,
     isAlive d = false ->
     exists d',
       _publishDData metrics d = Return tt d'
       /\ isAlive d' = false
       /\ frames d'
          = frames d ++ (if _isConnected d
                         then [DBIRTH (array (_metrics d))] else [])
       /\ birthsPending d'
          = if _isConnected d then S (birthsPending d) else birthsPending d)
  /\ (forall d,
        birthsPending d <> 0 ->
        isAlive (final (handle parseValue parseTimeStamp BirthPublished d))
        = true)
  /\ (forall d0 events pre metrics post,
        isAlive d0 = false -> birthsPending d0 = 0 -> frames d0 = [] ->
        frames (run parseValue parseTimeStamp d0 events)
        = pre ++ DDATA metrics :: post ->
        exists b, DBIRTH b ∈ pre).
Proof.
  split; [|split].
  - intros d metrics Halive.
    unfold _publishDData, _publishDBirth, log, emit, modify, gets.
    rewrite !M_bind_unfold. simpl. rewrite Halive.
    rewrite !M_bind_unfold. simpl.
    destruct (_isConnected d); simpl; eexists; (split; [reflexivity|]);
      unfold frames; simpl; rewrite omap_app; simpl;
      rewrite ?app_nil_r; done.
  - intros d Hp. simpl. rewrite M_bind_unfold. simpl.
    destruct (birthsPending d); done.
  - intros d0 events pre metrics post Halive Hp Hf Hrun.
    assert (lifecycle_inv d0) as Hinv.
    { split; [by rewrite Hf|]. intros [Ha|Hb]; congruence. }
    destruct (lifecycle_inv_run parseValue parseTimeStamp events d0 Hinv)
      as [Hb _].
    by eapply births_first_precedes.
Qed.

(** C2 on the sample Device: it connects, its BIRTH is acknowledged and
    the driver then reports a new value. *)
Lemma birth_precedes_data_witness :
  exists b, DBIRTH b ∈ [DBIRTH (array (_metrics sample_device))].
Proof.
  refine (proj2 (proj2 (birth_precedes_data (H := sample_prims)
                          sample_parseValue sample_parseTimeStamp))
            sample_device
            [(6%Z, DriverOpen); (7%Z, BirthPublished);
             (8%Z, DriverData {[ "DB1,DW0" := Js.Num (Js.Fin 42) ]} false)]
            [DBIRTH (array (_metrics sample_device))]
            [Some (updated (Js.Num (Js.Fin 42)) Js.Undefined 8 sample_metric)]
            [] _ _ _ _);
    vm_compute; reflexivity.
Defined.

(** C2 as it is worded fails twice.  A DATA publish on a Device that is
    neither alive nor connected publishes no BIRTH, and no frame at all;
    and a Device whose watchdog expires and whose driver then closes
    publishes BIRTH, DEATH, DEATH, which no sequence of epochs
    [BIRTH DATA* DEATH?] matches. *)
Lemma birth_precedes_data_counterexample :
  (isAlive sample_device = false
   /\ frames (final (_publishDData [Some sample_metric] sample_device)) = [])
  /\ (let d := final (_deviceDisconnected (final (publishDDeath sample_alive))) in
      frames d = [DBIRTH (array (_metrics sample_device)); DDEATH; DDEATH]
      /\ epochs_ok (frames d) = false).
Proof. repeat split; vm_compute; reflexivity. Qed.

(** *** Commands *)

Lemma on_metrics_ok {A : Type} (f : Metrics -> Res (A * Metrics))
    (d : Device) (a : A) (s' : Metrics) :
  f (_metrics d) = Ok (a, s') ->
  on_metrics f d = Return a (set_metrics s' d).
Proof.
  intros Hf. unfold on_metrics, gets, lift, modify.
  rewrite !M_bind_unfold. simpl. rewrite Hf. reflexivity.
Qed.

Lemma from_metrics_ok {A : Type} (f : Metrics -> Res A) (d : Device) (a : A) :
  f (_metrics d) = Ok a -> from_metrics f d = Return a d.
Proof.
  intros Hf. unfold from_metrics, gets, lift.
  rewrite !M_bind_unfold. simpl. rewrite Hf. reflexivity.
Qed.

Lemma setValueByName_resolved (s : Metrics) (n : string) (i : nat)
    (m : Metric) (v timestamp : Js.value) (now : Z) :
  nameIndex s !! n = Some i -> array s !! i = Some m ->
  setValueByName n v timestamp now s
  = Ok (Some (updated v timestamp now m),
        replaced i (updated v timestamp now m) s).
Proof.
  intros Hn Hm.
  apply set_at_resolved; simpl; try done; by rewrite (member_own _ _ _ Hn).
Qed.

Lemma getByName_replaced (s : Metrics) (n : string) (i : nat) (m m' : Metric) :
  nameIndex s !! n = Some i -> array s !! i = Some m ->
  getByName n (replaced i m' s) = Ok (Some m').
Proof.
  intros Hn Hm. unfold getByName, at_index. simpl.
  rewrite (member_own _ _ _ Hn). simpl.
  rewrite list_lookup_insert_eq by by eapply lookup_lt_Some. done.
Qed.

Ltac exec :=
  repeat (first [rewrite M_bind_unfold | rewrite M_ret_unfold];
          cbn -[setValueByName getByName on_metrics from_metrics app
                new_Metrics]).


(** A DCMD metric that stands for [rm] is handled as [rm] is from the
    log line on. *)
Ltac resolve_command Hstands :=
  let Hnn := fresh "Hnn" in
  let a := fresh "a" in
  let found := fresh "found" in
  let Ha := fresh "Ha" in
  let Hfound := fresh "Hfound" in
  destruct Hstands as [[Hnn ->]|(Hnn & a & found & Ha & Hfound & ->)];
  unfold handleDCmdMetric; rewrite Hnn;
  [|rewrite Ha; rewrite M_bind_unfold, M_bind_unfold;
    rewrite (from_metrics_ok _ _ _ Hfound); cbv iota;
    rewrite M_ret_unfold; cbv iota];
  [rewrite M_bind_unfold, M_ret_unfold; cbv iota|].




Lemma strict_eq_Str (v : Js.value) (s : string) :
  Js.strict_eq v (Js.Str s) = bool_decide (v = Js.Str s).
Proof.
  destruct v as [| |b|[z| |]|z|s'|z|o|a]; try reflexivity. simpl.
  destruct (String.eqb_spec s' s) as [->|Hne].
  - by rewrite bool_decide_eq_true_2.
  - rewrite bool_decide_eq_false_2; [done|]. intros [= ->]. done.
Qed.

Lemma buildIndices_from_array (rest : list Metric) :
  forall (i : nat) (s s' : Metrics),
    buildIndices_from i rest s = Ok s' -> array s' = array s.
Proof.
  intros i s s' Hs.
  by destruct (buildIndices_from_addrIndex "" rest i s s' Hs).
Qed.

(** C4, as the code has it.  A DCMD metric, named or known by its
    alias, that stands for a metric of the store other than the three of
    Device Control is logged; when the method of its target is exactly
    GET it is logged as read only and not queued, and otherwise a copy
    of the target with the new value is queued; either way nothing is
    published and nothing is written.  A DCMD metric without a name
    whose alias is missing or unknown to the store throws a TypeError.
    After the loop the queue, unless empty, goes to the driver in one
    write. *)
Theorem dcmd_read_only_or_queued `{BufferPrims} (d : Device) :
  (forall (queued : list Metric) (pm rm old : Metric) (n : string)
          (props : gmap string Property) (method : Property),
     stands_for (_metrics d) pm rm -> name rm = Some n ->
     n <> "Device Control/Reboot" -> n <> "Device Control/Rebirth" ->
     n <> "Device Control/Polling Interval" ->
     getByName n (_metrics d) = Ok (Some old) ->
     properties old = Some props -> props !! "method" = Some method ->
     (pvalue method = Js.Str "GET" ->
      handleDCmdMetric queued pm d
      = Return queued
          (set_effects (effects d ++ [ Log (LogDCmd (Some n) (value pm));
                                       Log (LogReadOnly n) ]) d))
     /\ (pvalue method <> Js.Str "GET" ->
         handleDCmdMetric queued pm d
         = Return (queued ++ [with_value (narrow (value pm)) old])
             (set_effects (effects d ++ [Log (LogDCmd (Some n) (value pm))])
                d)))
  /\ (forall (queued : list Metric) (pm : Metric),
        no_name pm = true ->
        alias pm = None
        \/ (exists a, alias pm = Some a
                      /\ getByAlias a (_metrics d) = Ok None) ->
        handleDCmdMetric queued pm d = Raise Js.TypeError d)
  /\ (forall (payload : list Metric) (d' : Device),
        foldM handleDCmdMetric payload [] d = Return [] d' ->
        _handleDCmd payload d = Return tt d')
  /\ (forall (payload queued : list Metric) (d' : Device) (s : Metrics),
        foldM handleDCmdMetric payload [] d = Return queued d' ->
        queued <> [] -> new_Metrics queued = Ok s ->
        _handleDCmd payload d
        = Return tt
            (set_writesPending (writesPending d' ++ [queued])
               (set_effects (effects d' ++ [WriteMetrics queued]) d'))).
Proof.
  split; [|split; [|split]].
  - intros queued pm rm old n props method Hstands Hname Hn1 Hn2 Hn3 Hold
      Hprops Hmeth.
    assert (value rm = value pm) as Hv.
    { destruct Hstands as [[_ ->]|(_ & a & found & _ & _ & ->)]; done. }
    apply String.eqb_neq in Hn1, Hn2, Hn3.
    resolve_command Hstands; simpl in Hname, Hv;
      unfold log, emit, modify, gets; exec; rewrite Hname;
      cbn -[setValueByName getByName on_metrics from_metrics app new_Metrics];
      rewrite Hn1, Hn2, Hn3; exec;
      (erewrite from_metrics_ok by (simpl; exact Hold));
      simpl; rewrite Hprops, Hmeth, strict_eq_Str;
      (split; intros Hget;
       [ rewrite bool_decide_eq_true_2 by done; simpl; exec;
         by rewrite <- app_assoc
       | rewrite bool_decide_eq_false_2 by done; reflexivity ]).
  - intros queued pm Hnn [Ha|(a & Ha & Hfound)];
      unfold handleDCmdMetric; rewrite Hnn, Ha; [reflexivity|].
    rewrite M_bind_unfold, M_bind_unfold.
    by rewrite (from_metrics_ok _ _ _ Hfound).
  - intros payload d' Hfold. unfold _handleDCmd.
    rewrite M_bind_unfold, Hfold. reflexivity.
  - intros payload queued d' s Hfold Hne Hnew. unfold _handleDCmd, writeMetrics.
    rewrite M_bind_unfold, Hfold.
    rewrite bool_decide_eq_false_2 by done.
    rewrite M_bind_unfold, Hnew. unfold lift.
    unfold new_Metrics, buildIndices in Hnew.
    apply buildIndices_from_array in Hnew. simpl in Hnew.
    unfold emit, modify. exec.
    change ((mret s : M Metrics) d') with (Return s d'). cbv iota.
    exec. rewrite Hnew. reflexivity.
Qed.

(** C4 on the sample Device with two metrics and aliases: the command
    that carries the alias of [Spindle/Speed], whose method is GET, is
    logged as read only, and of a payload with that command and the one
    for [Spindle/Load] only [Spindle/Load] is written. *)
Lemma dcmd_read_only_or_queued_witness :
  handleDCmdMetric (H := sample_prims) [] sample_alias_speed
    sample_alive_aliased
  = Return []
      (set_effects
         (effects sample_alive_aliased
          ++ [ Log (LogDCmd (Some "Spindle/Speed") (value sample_alias_speed));
               Log (LogReadOnly "Spindle/Speed") ]) sample_alive_aliased)
  /\ _handleDCmd (H := sample_prims) [sample_alias_speed; sample_write_load]
       sample_alive_aliased
     = Return tt
         (set_writesPending
            (writesPending sample_two_logged ++ [[sample_load_written]])
            (set_effects
               (effects sample_two_logged
                ++ [WriteMetrics [sample_load_written]]) sample_two_logged)).
Proof.
  destruct (dcmd_read_only_or_queued (H := sample_prims) sample_alive_aliased)
    as (Hone & _ & _ & Hbatch).
  split.
  - refine (proj1 (Hone [] sample_alias_speed
                     (with_name_alias (Some "Spindle/Speed") 7
                        sample_alias_speed)
                     sample_speed_aliased "Spindle/Speed"
                     (default ∅ (properties sample_speed_aliased))
                     (mkProperty (Js.Str "GET") "string")
                     _ _ _ _ _ _ _ _) _);
      first [ discriminate | vm_compute; reflexivity | idtac ].
    right. split; [reflexivity|]. exists 7%Z, sample_speed_aliased.
    repeat split; vm_compute; reflexivity.
  - refine (Hbatch [sample_alias_speed; sample_write_load]
              [sample_load_written] sample_two_logged
              sample_load_store _ _ _);
      first [ discriminate | vm_compute; reflexivity ].
Defined.

(** C4 as it is worded fails on a method that starts with GET without
    being GET: the command for [Spindle/Load], whose method is GET_RAW,
    is not logged as read only; it is written to the driver, and when the
    driver calls back a DATA frame is published for it. *)
Lemma dcmd_GET_prefix_counterexample :
  (endianness_of sample_metric_raw = Some (mkProperty Js.Null "uInt16")
   /\ (properties sample_metric_raw ≫= (.!! "method"))
      = Some (mkProperty (Js.Str "GET_RAW") "string")
   /\ starts_with_GET "GET_RAW" = true)
  /\ _handleDCmd (H := sample_prims) [sample_write_load] sample_alive_two
     = Return tt sample_load_queued
  /\ effects sample_load_queued
     = effects sample_alive_two
       ++ [ Log (LogDCmd (Some "Spindle/Load") (Js.Num (Js.Fin 80)));
            WriteMetrics [sample_load_written] ]
  /\ frames (final (handle (H := sample_prims) sample_parseValue
                      sample_parseTimeStamp (WriteDone false)
                      (set_clock 9 sample_load_queued)))
     = frames sample_load_queued
       ++ [DDATA [Some (updated (Js.Num (Js.Fin 80)) Js.Undefined 9
                          sample_metric_raw)]].
Proof. repeat split; vm_compute; reflexivity. Qed.

(** ** Inbound data *)

Lemma strict_eq_refl (v : Js.value) :
  Js.typeof v <> "object" -> v <> Js.Num Js.NaN -> Js.strict_eq v v = true.
Proof.
  destruct v as [| |b|[z| |]|z|s|z|o|a]; simpl; try done; intros _ _.
  - by destruct b.
  - apply Z.eqb_refl.
  - apply Z.eqb_refl.
  - apply String.eqb_refl.
Qed.

Lemma sensible_spec (v : Js.value) :
  Js.truthy v || Js.loose_eq_zero v = true <-> sensible v.
Proof.
  unfold sensible.
  destruct v as [| |b|[z| |]|z|s|z|o|a]; simpl;
    try (split; [intros _; repeat split; discriminate | intros _]);
    try (split; [discriminate | intros (? & ? & ?); done]).
  - by destruct b.
  - by destruct (z =? 0)%Z.
  - done.
  - by destruct (z =? 0)%Z.
  - by destruct (String.eqb s "").
  - done.
  - done.
  - done.
Qed.

Lemma change_filter_spec (current newVal : Js.value) :
  change_filter current newVal = true
  <-> sensible newVal /\ differs current newVal = true.
Proof.
  unfold change_filter, differs. rewrite andb_true_iff, sensible_spec.
  split; intros [Hv Hd]; (split; [exact Hv|]).
  - unfold Js.isDeepStrictEqual in *.
    destruct (decide (current = newVal)) as [->|Hne].
    + rewrite bool_decide_eq_true_2 in Hd by done.
      rewrite orb_false_r in Hd. apply andb_true_iff in Hd as [Hty Heq].
      rewrite strict_eq_refl in Heq; [done| |by destruct Hv as (_ & _ & ?)].
      intros Hobj. by rewrite Hobj in Hty.
    + by rewrite bool_decide_eq_false_2.
  - by rewrite Hd, orb_true_r.
Qed.

Lemma change_filter_same (v : Js.value) :
  sensible v -> change_filter v v = false.
Proof.
  intros Hv. destruct (change_filter v v) eqn:Hf; [|done].
  apply change_filter_spec in Hf as [_ Hd]. unfold differs in Hd.
  unfold Js.isDeepStrictEqual in Hd.
  by rewrite bool_decide_eq_true_2 in Hd.
Qed.

(** *** The (address, path) index is sound *)

Lemma indexMetric_array (i : nat) (m : Metric) (s s' : Metrics) :
  indexMetric i m s = Ok s' -> array s' = array s.
Proof.
  intros Hs. by destruct (indexMetric_addrIndex "" i m s s' Hs).
Qed.

Lemma put_lookup {V : Type} (k k' : string) (v x : V) (o : gmap string V) :
  put k v o !! k' = Some x -> (k' = k /\ x = v) \/ o !! k' = Some x.
Proof.
  assert (<[k := v]> o !! k' = Some x ->
          (k' = k /\ x = v) \/ o !! k' = Some x) as Hins.
  { destruct (decide (k = k')) as [<-|Hne].
    - rewrite lookup_insert_eq. intros [= <-]. by left.
    - rewrite lookup_insert_ne by done. by right. }
  unfold put. destruct (o !! k); [exact Hins|].
  destruct (String.eqb k "__proto__"); [by right|exact Hins].
Qed.

Lemma indexMetric_sound (i : nat) (m : Metric) (s s' : Metrics) :
  array s !! i = Some m -> index_sound s ->
  indexMetric i m s = Ok s' -> index_sound s'.
Proof.
  intros Hm Hs. unfold indexMetric.
  destruct (properties m) as [props|] eqn:Hprops; [|intros [= <-]; exact Hs].
  destruct (props !! "address") as [address|] eqn:Haddress;
    [|intros [= <-]; exact Hs].
  destruct (props !! "path") as [path|] eqn:Hpath; [|intros [= <-]; exact Hs].
  destruct (method_is_GET props) as [[|]|e]; simpl;
    [|intros [= <-]; exact Hs|done].
  set (key := Js.to_key (pvalue address)).
  assert (key_of "address" m = Some key /\
          key_of "path" m = Some (Js.to_key (pvalue path))) as [Hka Hkp].
  { unfold key_of. rewrite Hprops. simpl. by rewrite Haddress, Hpath. }
  destruct (member (addrIndex s) key) as [l|k|]; simpl; [|done|];
    (destruct (member (addrPathIndex s) key) as [paths|k|] eqn:Hmem; simpl;
     [|done|]);
    intros [= <-]; intros addr paths' p j; simpl;
    (destruct (decide (key = addr)) as [<-|Hne];
     [|rewrite lookup_insert_ne by done; by apply Hs]);
    rewrite lookup_insert_eq; intros [= <-] Hp;
    (apply put_lookup in Hp as [[-> ->]|Hp]; [by exists m|]).
  all: try by rewrite lookup_empty in Hp.
  all: apply member_Own_inv in Hmem; by apply (Hs key paths).
Qed.

Lemma buildIndices_from_sound (rest : list Metric) :
  forall (pre : list Metric) (s s' : Metrics),
    array s = pre ++ rest -> index_sound s ->
    buildIndices_from (length pre) rest s = Ok s' -> index_sound s'.
Proof.
  induction rest as [|m rest IH]; intros pre s s' Harr Hs; simpl.
  - by intros [= <-].
  - destruct (indexMetric (length pre) m s) as [s1|e] eqn:Hstep; [|done].
    rewrite Res_bind_Ok. intros Hrest.
    assert (array s !! length pre = Some m) as Hm
      by (rewrite Harr; by apply list_lookup_middle).
    apply (IH (pre ++ [m]) s1 s').
    + rewrite (indexMetric_array _ _ _ _ Hstep), Harr, <- app_assoc. done.
    + by eapply indexMetric_sound.
    + rewrite length_app. simpl. by rewrite Nat.add_1_r.
Qed.

Lemma new_Metrics_sound (metricArr : list Metric) (s : Metrics) :
  new_Metrics metricArr = Ok s -> index_sound s.
Proof.
  unfold new_Metrics, buildIndices. simpl. intros Hs.
  apply (buildIndices_from_sound metricArr [] (mkMetrics metricArr ∅ ∅ ∅ ∅) s);
    [reflexivity| |exact Hs].
  intros addr paths path i. simpl. by rewrite lookup_empty.
Qed.

Lemma add_sound (metrics : list Metric) (s s' : Metrics) :
  index_sound s -> add metrics s = Ok s' -> index_sound s'.
Proof.
  unfold add, buildIndices. simpl. intros Hs Hadd.
  apply (buildIndices_from_sound (array s ++ metrics) []
           (with_array (array s ++ metrics) s) s');
    [reflexivity| |exact Hadd].
  intros addr paths path i Ha Hp. simpl in *.
  destruct (Hs addr paths path i Ha Hp) as (m & Hm & Hk).
  exists m. split; [|done]. by apply lookup_app_l_Some.
Qed.

Lemma replaced_sound (i : nat) (m : Metric) (v t : Js.value) (now : Z)
    (s : Metrics) :
  array s !! i = Some m -> index_sound s ->
  index_sound (replaced i (updated v t now m) s).
Proof.
  intros Hm Hs addr paths path j Ha Hp. simpl in *.
  destruct (Hs addr paths path j Ha Hp) as (m0 & Hm0 & Hka & Hkp).
  destruct (decide (i = j)) as [<-|Hne].
  - exists (updated v t now m). rewrite list_lookup_insert_eq
      by by eapply lookup_lt_Some.
    split; [done|]. by simplify_eq.
  - exists m0. by rewrite list_lookup_insert_ne.
Qed.

(** *** One metric at a time *)

Section Inbound.

Context (parseValue : Js.value -> Metric -> string -> string -> Res Js.value).
Context (parseTimeStamp : Js.value -> Metric -> string -> string -> Js.value).
Context (obj : gmap string Js.value) (parseVals : bool).

Lemma handlePath_verdict (addr path : string)
    (changed : list (option Metric)) (d : Device) :
  handlePath parseValue parseTimeStamp obj parseVals addr changed path d
  = match path_verdict parseValue obj parseVals (_payloadFormat d)
            (_delimiter d) (_metrics d) addr path with
    | Throw e => Raise e d
    | Ok None => Return changed d
    | Ok (Some (i, m, v)) =>
        let m' :=
          updated v
            (parseTimeStamp (default Js.Undefined (obj !! addr)) m
               (_payloadFormat d) (_delimiter d))
            (clock d) m in
        Return (changed ++ [Some m'])
               (set_metrics (replaced i m' (_metrics d)) d)
    end.
Proof.
  unfold handlePath, path_verdict, has_path, from_metrics, getByAddrPath,
    at_index, gets.
  rewrite !M_bind_unfold.
  destruct (addrPath_lookup addr path (_metrics d)) as [[i|]|e] eqn:Hlook;
    try reflexivity.
  assert (forall m', addrPath_lookup addr path (replaced i m' (_metrics d))
                     = Ok (Some i)) as Hlook' by (intros m'; exact Hlook).
  cbn -[addrPath_lookup].
  destruct (array (_metrics d) !! i) as [m|] eqn:Hm; [|reflexivity].
  cbn -[addrPath_lookup].
  destruct (properties m) as [props|]; [|reflexivity].
  rewrite M_bind_unfold.
  destruct (method_is_GET props) as [[|]|e]; try reflexivity.
  cbn -[addrPath_lookup setValueByAddrPath on_metrics].
  set (cond := negb parseVals || _).
  destruct cond; [|reflexivity].
  exec. destruct parseVals.
  - exec.
    destruct (parseValue (default Js.Undefined (obj !! addr)) m
                (_payloadFormat d) (_delimiter d)) as [v|e];
      simpl; [|reflexivity].
    destruct (change_filter (value m) v); [|reflexivity].
    exec. erewrite on_metrics_ok; [exec; reflexivity|].
    by apply set_at_resolved.
  - exec.
    destruct (change_filter (value m) (default Js.Undefined (obj !! addr)));
      [|reflexivity].
    exec. erewrite on_metrics_ok; [exec; reflexivity|].
    by apply set_at_resolved.
Qed.

(** Writing another metric does not change the verdict for a pair the
    index holds. *)
Lemma verdict_other (s : Metrics) (fmt delim : string) (j : nat)
    (mj : Metric) (v t : Js.value) (now : Z) (a p : string) :
  index_sound s -> array s !! j = Some mj -> held s a p ->
  (key_of "address" mj, key_of "path" mj) <> (Some a, Some p) ->
  path_verdict parseValue obj parseVals fmt delim
    (replaced j (updated v t now mj) s) a p
  = path_verdict parseValue obj parseVals fmt delim s a p.
Proof.
  intros Hs Hj (paths & i & Ha & Hp) Hne. unfold path_verdict.
  change (addrPath_lookup a p (replaced j (updated v t now mj) s))
    with (addrPath_lookup a p s).
  rewrite (addrPath_lookup_held _ _ _ _ _ Ha Hp). simpl.
  destruct (Hs a paths p i Ha Hp) as (m & Hm & Hka & Hkp).
  destruct (decide (j = i)) as [->|Hji].
  - rewrite Hj in Hm. injection Hm as ->. by rewrite Hka, Hkp in Hne.
  - by rewrite list_lookup_insert_ne.
Qed.

(** Once a value is accepted for a metric, the same payload is not
    accepted for it again. *)
Lemma verdict_settled (s : Metrics) (fmt delim : string) (i : nat)
    (m : Metric) (v t : Js.value) (now : Z) (a p : string) :
  (parseVals = true -> decoder_settles parseValue) ->
  path_verdict parseValue obj parseVals fmt delim s a p = Ok (Some (i, m, v)) ->
  path_verdict parseValue obj parseVals fmt delim
    (replaced i (updated v t now m) s) a p = Ok None.
Proof.
  intros Hsettles. unfold path_verdict.
  change (addrPath_lookup a p (replaced i (updated v t now m) s))
    with (addrPath_lookup a p s).
  destruct (addrPath_lookup a p s) as [[i'|]|e]; [|done|done].
  cbn [array replaced].
  destruct (array s !! i') as [m0|] eqn:Hm; [|done].
  destruct (properties m0) as [props|] eqn:Hprops; [|done].
  destruct (method_is_GET props) as [isGet|e] eqn:Hget; [|done].
  rewrite !Res_bind_Ok.
  destruct (isGet && _) eqn:Hcond; [|done].
  destruct (if parseVals then _ else _) as [v0|e] eqn:Hparse; [|done].
  rewrite Res_bind_Ok.
  destruct (change_filter (value m0) v0) eqn:Hfilter; [|done].
  intros [= -> -> ->].
  rewrite list_lookup_insert_eq by by eapply lookup_lt_Some.
  cbn [properties value updated]. rewrite Hprops, Hget, Res_bind_Ok, Hcond.
  assert ((if parseVals
           then parseValue (default Js.Undefined (obj !! a))
                  (updated v t now m) fmt delim
           else Ok (default Js.Undefined (obj !! a))) = Ok v) as ->.
  { destruct parseVals; [|done]. by apply (Hsettles eq_refl). }
  rewrite Res_bind_Ok.
  apply change_filter_spec in Hfilter as [Hv _].
  by rewrite change_filter_same.
Qed.

(** An accepted verdict names the metric the index points at. *)
Lemma verdict_accepts (s : Metrics) (fmt delim : string) (i : nat)
    (m : Metric) (v : Js.value) (a p : string) :
  path_verdict parseValue obj parseVals fmt delim s a p = Ok (Some (i, m, v)) ->
  addrPath_lookup a p s = Ok (Some i) /\ array s !! i = Some m.
Proof.
  unfold path_verdict.
  destruct (addrPath_lookup a p s) as [[i'|]|e]; [|done|done].
  destruct (array s !! i') as [m0|] eqn:Hm; [|done].
  destruct (properties m0) as [props|]; [|done].
  destruct (method_is_GET props) as [isGet|e]; [|done].
  rewrite Res_bind_Ok.
  destruct (isGet && _); [|done].
  destruct (if parseVals then _ else _) as [v0|e]; [|done].
  rewrite Res_bind_Ok. destruct (change_filter _ _); [|done].
  by intros [= <- <- <-].
Qed.

End Inbound.

(** *** One pass over the payload, and a second one *)

Lemma foldM_app {A B : Type} (f : B -> A -> M B) (l1 l2 : list A) :
  forall (b : B) (d : Device),
    foldM f (l1 ++ l2) b d
    = match foldM f l1 b d with
      | Return b' d' => foldM f l2 b' d'
      | Raise e d' => Raise e d'
      end.
Proof.
  induction l1 as [|x l1 IH]; intros b d; simpl; [done|].
  rewrite !M_bind_unfold. destruct (f b x d) as [b' d'|e d']; [|done].
  apply IH.
Qed.

Section Passes.

Context (parseValue : Js.value -> Metric -> string -> string -> Res Js.value).
Context (parseTimeStamp : Js.value -> Metric -> string -> string -> Js.value).
Context (obj : gmap string Js.value) (parseVals : bool).

Abbreviation verdict d :=
  (path_verdict parseValue obj parseVals (_payloadFormat d) (_delimiter d)
     (_metrics d)).
Abbreviation pass := (run_items parseValue parseTimeStamp obj parseVals).

(** A pass over pairs the index holds, when it returns, has settled
    every metric it visited, touched nothing but the array of the store,
    and left the list of changed metrics as it was exactly when no
    visited metric took a value. *)
Lemma pass_settles (items : list (string * string)) :
  (parseVals = true -> decoder_settles parseValue) ->
  NoDup items ->
  forall changed d changed1 d1,
    index_sound (_metrics d) ->
    (forall a p, (a, p) ∈ items -> held (_metrics d) a p) ->
    pass items changed d = Return changed1 d1 ->
    index_sound (_metrics d1)
    /\ (exists arr, d1 = set_metrics (with_array arr (_metrics d)) d)
    /\ (forall a p, (a, p) ∈ items -> verdict d1 a p = Ok None)
    /\ (forall a p, held (_metrics d) a p -> (a, p) ∉ items ->
                    verdict d1 a p = verdict d a p)
    /\ exists extra,
         changed1 = changed ++ extra
         /\ (extra = [] <-> forall a p, (a, p) ∈ items -> verdict d a p = Ok None).
Proof.
  intros Hsettles. induction 1 as [|[a p] items Hnotin Hnodup IH];
    intros changed d changed1 d1 Hsound Hheld; unfold run_items; simpl.
  - intros [= <- <-]. split; [done|]. split.
    { exists (array (_metrics d)). by destruct d as [? [] ? ? ? ? ? ? ? ? ? ? ?]. }
    split; [intros a p Hin; by apply elem_of_nil in Hin|].
    split; [done|]. exists []. rewrite app_nil_r. split; [done|].
    split; [|done]. intros _ a p Hin. by apply elem_of_nil in Hin.
  - rewrite M_bind_unfold, handlePath_verdict.
    assert (held (_metrics d) a p) as Hap by (apply Hheld; constructor).
    destruct (verdict d a p) as [[[[i m] v]|]|e] eqn:Hv; [| |done].
    + (* accepted *)
      cbv zeta.
      set (m' := updated v _ (clock d) m).
      set (d' := set_metrics (replaced i m' (_metrics d)) d).
      intros Hrest.
      destruct (verdict_accepts _ _ _ _ _ _ _ _ _ _ _ Hv) as [Hlook Hm].
      destruct Hap as (paths & i' & Ha & Hp).
      rewrite (addrPath_lookup_held _ _ _ _ _ Ha Hp) in Hlook.
      injection Hlook as ->.
      destruct (Hsound a paths p i Ha Hp) as (m0 & Hm0 & Hka & Hkp).
      rewrite Hm in Hm0. injection Hm0 as <-.
      assert (index_sound (_metrics d')) as Hsound'
        by (by apply replaced_sound).
      assert (forall a' p', (a', p') ∈ items -> held (_metrics d') a' p')
        as Hheld' by (intros a' p' Hin; apply Hheld; by constructor).
      destruct (IH _ d' _ _ Hsound' Hheld' Hrest)
        as (Hs1 & [arr Harr] & Hin1 & Hout1 & extra & Hch & _).
      split; [done|]. split; [exists arr; by rewrite Harr|].
      split; [|split].
      * intros a' p' Hin. apply elem_of_cons in Hin as [[= -> ->]|Hin].
        -- rewrite (Hout1 a p) by (done || by exists paths, i).
           by apply verdict_settled.
        -- by apply Hin1.
      * intros a' p' Hap' Hout. apply not_elem_of_cons in Hout as [Hne Hout].
        rewrite (Hout1 a' p' Hap' Hout). apply verdict_other; try done.
        rewrite Hka, Hkp. intros [= -> ->]. done.
      * exists (Some m' :: extra). rewrite Hch, <- app_assoc. split; [done|].
        split; [done|]. intros Hall.
        rewrite (Hall a p) in Hv by constructor. done.
    + (* left alone *)
      intros Hrest.
      assert (forall a' p', (a', p') ∈ items -> held (_metrics d) a' p')
        as Hheld' by (intros a' p' Hin; apply Hheld; by constructor).
      destruct (IH _ d _ _ Hsound Hheld' Hrest)
        as (Hs1 & Harr & Hin1 & Hout1 & extra & Hch & Hextra).
      split; [done|]. split; [done|]. split; [|split].
      * intros a' p' Hin. apply elem_of_cons in Hin as [[= -> ->]|Hin].
        -- by rewrite (Hout1 a p Hap Hnotin).
        -- by apply Hin1.
      * intros a' p' Hap' Hout. apply not_elem_of_cons in Hout as [Hne Hout].
        by apply Hout1.
      * exists extra. split; [done|]. rewrite Hextra. split.
        -- intros Hall a' p' Hin.
           apply elem_of_cons in Hin as [[= -> ->]|Hin]; [done|by apply Hall].
        -- intros Hall a' p' Hin. apply Hall. by constructor.
Qed.

(** A pass over settled metrics changes nothing. *)
Lemma pass_settled (items : list (string * string)) :
  forall changed d,
    (forall a p, (a, p) ∈ items -> verdict d a p = Ok None) ->
    pass items changed d = Return changed d.
Proof.
  induction items as [|[a p] items IH]; intros changed d Hall;
    unfold run_items; simpl; [done|].
  rewrite M_bind_unfold, handlePath_verdict, (Hall a p) by constructor.
  apply IH. intros a' p' Hin. apply Hall. by constructor.
Qed.

End Passes.

(** *** Two passes of [_handleData] *)

Lemma NoDup_pairs {A B : Type} (l : list A) (f : A -> list B) :
  NoDup l -> (forall a, NoDup (f a)) ->
  NoDup (a ← l; b ← f a; [(a, b)]).
Proof.
  intros Hl Hf. induction Hl as [|a l Hnotin Hl IH]; simpl; [constructor|].
  apply NoDup_app. split; [|split; [|exact IH]].
  - induction (Hf a) as [|b bs Hb _ IHb]; simpl; [constructor|].
    constructor; [|exact IHb].
    intros Hin. apply list_elem_of_bind in Hin as (b' & Hin & Hb').
    apply list_elem_of_singleton in Hin as [= <-]. done.
  - intros [a' b] Hin1 Hin2.
    apply list_elem_of_bind in Hin1 as (b1 & Hin1 & _).
    apply list_elem_of_singleton in Hin1 as [= -> ->].
    apply list_elem_of_bind in Hin2 as (a2 & Hin2 & Ha2).
    apply list_elem_of_bind in Hin2 as (b2 & Hin2 & _).
    apply list_elem_of_singleton in Hin2 as [= -> ->]. done.
Qed.

Lemma NoDup_keys {K : Type} `{Countable K} {V : Type} (m : gmap K V) :
  NoDup (keys m).
Proof. apply NoDup_fst_map_to_list. Qed.

Lemma NoDup_visited (obj : gmap string Js.value) (s : Metrics) :
  NoDup (visited obj s).
Proof.
  apply NoDup_pairs; [apply NoDup_keys|]. intros a. unfold getPathsForAddr.
  destruct (member _ a); [apply NoDup_keys|constructor|constructor].
Qed.

Lemma elem_of_keys {V : Type} (m : gmap string V) (k : string) :
  k ∈ keys m <-> exists v, m !! k = Some v.
Proof.
  unfold keys. rewrite list_elem_of_fmap. split.
  - intros ([k' v] & -> & Hin). exists v. by apply elem_of_map_to_list.
  - intros [v Hk]. exists (k, v). split; [done|]. by apply elem_of_map_to_list.
Qed.

(** [_handleData] visits the pairs of the index whose address the
    payload carries. *)
Lemma elem_of_visited (obj : gmap string Js.value) (s : Metrics)
    (addr path : string) :
  (addr, path) ∈ visited obj s
  <-> (exists raw, obj !! addr = Some raw) /\ held s addr path.
Proof.
  unfold visited, held. rewrite list_elem_of_bind. split.
  - intros (a & Hin & Ha). apply list_elem_of_bind in Hin as (p' & Hin & Hp).
    apply list_elem_of_singleton in Hin as [= -> ->].
    split; [by apply elem_of_keys|].
    unfold getPathsForAddr in Hp.
    destruct (member _ a) as [paths|k|] eqn:Hmem;
      [|by apply elem_of_nil in Hp|by apply elem_of_nil in Hp].
    apply elem_of_keys in Hp as [i Hi]. exists paths, i.
    split; [by apply member_Own_inv|done].
  - intros [Hobj (paths & i & Ha & Hp)]. exists addr.
    split; [|by apply elem_of_keys].
    apply list_elem_of_bind. exists path.
    split; [by apply list_elem_of_singleton|].
    unfold getPathsForAddr. rewrite (member_own _ _ _ Ha).
    apply elem_of_keys. by exists i.
Qed.

Section Twice.

Context (parseValue : Js.value -> Metric -> string -> string -> Res Js.value).
Context (parseTimeStamp : Js.value -> Metric -> string -> string -> Js.value).
Context (obj : gmap string Js.value) (parseVals : bool).

Abbreviation verdict d :=
  (path_verdict parseValue obj parseVals (_payloadFormat d) (_delimiter d)
     (_metrics d)).
Abbreviation pass := (run_items parseValue parseTimeStamp obj parseVals).

Lemma pass_shape (items : list (string * string)) :
  forall changed d changed1 d1,
    pass items changed d = Return changed1 d1 ->
    exists arr, d1 = set_metrics (with_array arr (_metrics d)) d.
Proof.
  induction items as [|[a p] items IH]; intros changed d changed1 d1;
    unfold run_items; simpl.
  - intros [= <- <-]. exists (array (_metrics d)).
    by destruct d as [? [] ? ? ? ? ? ? ? ? ? ? ?].
  - rewrite M_bind_unfold, handlePath_verdict.
    destruct (verdict d a p) as [[[[i m] v]|]|e]; [| |done].
    + cbv zeta. intros Hrest. destruct (IH _ _ _ _ Hrest) as [arr ->].
      by exists arr.
    + apply IH.
Qed.

Lemma pass_app (l1 l2 : list (string * string)) :
  forall changed d,
    pass (l1 ++ l2) changed d
    = match pass l1 changed d with
      | Return changed' d' => pass l2 changed' d'
      | Raise e d' => Raise e d'
      end.
Proof. intros changed d. apply foldM_app. Qed.

Lemma paths_flat (a : string) (paths : list string) :
  forall changed d,
    foldM (handlePath parseValue parseTimeStamp obj parseVals a) paths
      changed d
    = pass (path ← paths; [(a, path)]) changed d.
Proof.
  induction paths as [|p paths IH]; intros changed d; [reflexivity|].
  change (pass (path ← p :: paths; [(a, path)]) changed d)
    with (pass ((a, p) :: (path ← paths; [(a, path)])) changed d).
  unfold run_items. cbn [foldM]. rewrite !M_bind_unfold. cbn [fst snd].
  destruct (handlePath parseValue parseTimeStamp obj parseVals a changed p d)
    as [ch' d'|e d']; [|done].
  apply IH.
Qed.

Lemma addrs_flat (addrs : list string) :
  forall changed d,
    foldM (fun changed addr =>
             paths ← gets (fun d => getPathsForAddr addr (_metrics d));
             foldM (handlePath parseValue parseTimeStamp obj parseVals addr)
               paths changed)
          addrs changed d
    = pass (addr ← addrs; path ← getPathsForAddr addr (_metrics d);
            [(addr, path)]) changed d.
Proof.
  induction addrs as [|a addrs IH]; intros changed d; [reflexivity|].
  change (pass (addr ← a :: addrs;
                path ← getPathsForAddr addr (_metrics d); [(addr, path)])
            changed d)
    with (pass ((path ← getPathsForAddr a (_metrics d); [(a, path)])
                ++ (addr ← addrs;
                    path ← getPathsForAddr addr (_metrics d); [(addr, path)]))
            changed d).
  rewrite pass_app.
  cbn [foldM]. rewrite !M_bind_unfold. unfold gets at 1. cbv beta iota.
  rewrite paths_flat.
  destruct (pass (path ← getPathsForAddr a (_metrics d); [(a, path)])
              changed d) as [ch' d'|e d'] eqn:Hpass; [|done].
  rewrite IH. destruct (pass_shape _ _ _ _ _ Hpass) as [arr ->]. done.
Qed.

(** On a Device that is alive and whose index is sound, a call of
    [_handleData] that returns publishes one DATA frame with the metrics
    that took a value, or none when no metric did, and refreshes the
    watchdog; the same payload handed in again, at any later time,
    publishes nothing and only refreshes the watchdog. *)
Lemma handleData_twice (d d1 : Device) :
  (parseVals = true -> decoder_settles parseValue) ->
  index_sound (_metrics d) -> isAlive d = true ->
  _handleData parseValue parseTimeStamp obj parseVals d = Return tt d1 ->
  exists changed,
    effects d1
    = effects d
      ++ match changed with
         | [] => []
         | _ :: _ => [Publish (DDATA changed)]
         end ++ [RefreshDeathTimer]
    /\ (changed = []
        <-> forall a p, (a, p) ∈ visited obj (_metrics d) ->
                        verdict d a p = Ok None)
    /\ forall t,
         _handleData parseValue parseTimeStamp obj parseVals (set_clock t d1)
         = Return tt
             (set_effects (effects d1 ++ [RefreshDeathTimer]) (set_clock t d1)).
Proof.
  intros Hsettles Hsound Halive. unfold _handleData.
  rewrite M_bind_unfold, addrs_flat. fold (visited obj (_metrics d)).
  destruct (pass _ [] d) as [changed dm|e dm] eqn:Hpass; [|done].
  assert (forall a p, (a, p) ∈ visited obj (_metrics d) ->
                      held (_metrics d) a p) as Hheld
    by (intros a p Hin; by apply elem_of_visited in Hin as [_ Hin]).
  destruct (pass_settles parseValue parseTimeStamp obj parseVals _ Hsettles
              (NoDup_visited obj (_metrics d)) _ _ _ _ Hsound Hheld Hpass)
    as (_ & [arr ->] & Hin & _ & extra & Hch & Hextra).
  simpl in Hch. subst extra.
  set (dm := set_metrics _ d) in *.
  assert (forall t e,
            _handleData parseValue parseTimeStamp obj parseVals
              (set_clock t (set_effects e dm))
            = Return tt (set_effects (e ++ [RefreshDeathTimer])
                           (set_clock t (set_effects e dm)))) as Hagain.
  { intros t e. unfold _handleData.
    rewrite M_bind_unfold, addrs_flat.
    rewrite (pass_settled parseValue parseTimeStamp obj parseVals)
      by (intros a p Hap; apply Hin, Hap).
    reflexivity. }
  destruct changed as [|c changed].
  - unfold _refreshDeathTimer, emit, modify. exec. intros [= <-].
    exists []. split; [done|]. split; [done|]. intros t. apply Hagain.
  - unfold _publishDData, _refreshDeathTimer, emit, modify, gets. exec.
    rewrite Halive. exec. intros [= <-].
    exists (c :: changed). split; [simpl; by rewrite <- app_assoc|].
    split; [done|]. intros t. apply Hagain.
Qed.

End Twice.

Lemma new_S7Device_sound (options : Options) (file : option Conf) (now : Z)
    (d : Device) :
  new_S7Device options file now = Ok d -> index_sound (_metrics d).
Proof.
  unfold new_S7Device, new_Device.
  destruct (new_Metrics _) as [s|e] eqn:Hnew; [|done].
  rewrite !Res_bind_Ok. simpl.
  destruct (add _ s) as [s'|e] eqn:Hadd; [|done].
  rewrite Res_bind_Ok. destruct (s7Vars _) as [vars|e]; [|done].
  rewrite Res_bind_Ok. intros [= <-]. simpl.
  eapply add_sound; [|exact Hadd]. by eapply new_Metrics_sound.
Qed.

(** C1, as the code has it.  The change filter accepts a new value if
    and only if the value is not undefined, not null and not NaN (0,
    the negative zero, false and the empty string count as values) and
    is not deeply and strictly equal to the current value of the metric,
    where the two zeros are different values; the test by [!==] on a
    primitive current value adds nothing to that.  Consequently, on a
    Device that is alive and whose index is sound, as every constructed
    Device's is, with a decoder that gives the same value again once the
    value is stored, a call of [_handleData] that returns makes one DATA
    frame with the metrics that changed, makes one whenever the payload
    carries, decoded or as it is, a value the filter accepts for a GET
    metric, and makes none exactly when no metric it visits takes a
    value; the same payload handed in again makes none. *)
Theorem change_filter_and_repeated_data
    (parseValue : Js.value -> Metric -> string -> string -> Res Js.value)
    (parseTimeStamp : Js.value -> Metric -> string -> string -> Js.value)
    (obj : gmap string Js.value) (parseVals : bool) (d d1 : Device) :
  (forall current newVal,
     change_filter current newVal = true
     <-> sensible newVal /\ differs current newVal = true)
  /\ ((parseVals = true -> decoder_settles parseValue) ->
      index_sound (_metrics d) -> isAlive d = true ->
      _handleData parseValue parseTimeStamp obj parseVals d = Return tt d1 ->
      one_frame_then_none parseValue parseTimeStamp obj parseVals d d1).
Proof.
  split; [apply change_filter_spec|].
  intros Hsettles Hsound Halive Hrun.
  destruct (handleData_twice parseValue parseTimeStamp obj parseVals d d1
              Hsettles Hsound Halive Hrun) as (changed & Heff & Hnone & Hagain).
  exists changed. split; [exact Heff|]. split; [exact Hnone|].
  split; [|exact Hagain].
  intros addr raw paths path i m props v Hobj Ha Hp Hm Hprops Hget Hcond
    Hdecode Hfilter Hchanged.
  assert ((addr, path) ∈ visited obj (_metrics d)) as Hin.
  { apply elem_of_visited. split; [by exists raw|by exists paths, i]. }
  pose proof (proj1 Hnone Hchanged addr path Hin) as Hverdict.
  unfold path_verdict in Hverdict.
  rewrite (addrPath_lookup_held _ _ _ _ _ Ha Hp), Hm, Hprops, Hget,
    Res_bind_Ok, Hobj in Hverdict.
  simpl in Hverdict.
  assert (negb parseVals
          || parseVals
             && (has_path props || bool_decide (length (keys obj) = 1))
          = true) as Hc.
  { destruct parseVals; [|done]. simpl.
    destruct (Hcond eq_refl) as [->|Hone]; [done|].
    by rewrite (bool_decide_eq_true_2 _ Hone), orb_true_r. }
  rewrite Hc, Hdecode, Res_bind_Ok, Hfilter in Hverdict. done.
Qed.

Lemma sample_parseValue_settles : decoder_settles sample_parseValue.
Proof. intros raw m v t now fmt delim Hv. exact Hv. Qed.

Lemma sample_json_device_built :
  new_S7Device sample_json_options (Some sample_conf) 5 = Ok sample_json_device.
Proof. vm_compute. reflexivity. Qed.

(** C1 on the Device that speaks JSON, alive, with a payload that
    decodes to a new value for [Spindle/Speed]. *)
Lemma change_filter_and_repeated_data_witness :
  one_frame_then_none sample_parseValue sample_parseTimeStamp sample_payload
    true (set_clock 8 sample_json_alive) sample_after_data.
Proof.
  refine (proj2 (change_filter_and_repeated_data sample_parseValue
                   sample_parseTimeStamp sample_payload true
                   (set_clock 8 sample_json_alive) sample_after_data) _ _ _ _).
  - intros _. exact sample_parseValue_settles.
  - exact (new_S7Device_sound _ _ _ _ sample_json_device_built).
  - reflexivity.
  - vm_compute. reflexivity.
Defined.

(** C1 as it is worded fails twice.  NaN is neither null nor undefined
    and differs from the current value 1, yet the filter rejects it.
    And the negative zero is accepted over a stored 0, which it is
    [===] to: the filter also asks [util.isDeepStrictEqual], for which
    the two zeros differ. *)
Lemma change_filter_NaN_counterexample :
  (Js.Num Js.NaN <> Js.Undefined /\ Js.Num Js.NaN <> Js.Null
   /\ scalar_or_deep (Js.Num (Js.Fin 1)) (Js.Num Js.NaN) = true
   /\ change_filter (Js.Num (Js.Fin 1)) (Js.Num Js.NaN) = false)
  /\ Js.strict_eq (Js.Num (Js.Fin 0)) (Js.Num Js.NegZero) = true
  /\ scalar_or_deep (Js.Num (Js.Fin 0)) (Js.Num Js.NegZero) = false
  /\ change_filter (Js.Num (Js.Fin 0)) (Js.Num Js.NegZero) = true.
Proof. repeat split; discriminate. Qed.

(** ** More on the metric store *)




(** In a store the constructor has built, and after [add], every pair
    the (address, path) index holds leads [getByAddrPath] to a metric
    that carries this address and this path. *)
Theorem getByAddrPath_finds_address_and_path
    (metricArr more : list Metric) (s s' : Metrics) :
  new_Metrics metricArr = Ok s -> add more s = Ok s' ->
  forall addr path,
    held s' addr path ->
    exists m, getByAddrPath addr path s' = Ok (Some m)
              /\ m ∈ metricArr ++ more
              /\ key_of "address" m = Some addr
              /\ key_of "path" m = Some path.
Proof.
  intros Hnew Hadd addr path (paths & i & Ha & Hp).
  assert (index_sound s') as Hs
    by (eapply add_sound; [by eapply new_Metrics_sound|exact Hadd]).
  destruct (Hs addr paths path i Ha Hp) as (m & Hm & Hka & Hkp).
  exists m. split; [|split; [|done]].
  - unfold getByAddrPath.
    rewrite (addrPath_lookup_held _ _ _ _ _ Ha Hp), Res_bind_Ok.
    unfold at_index. simpl. by rewrite Hm.
  - unfold new_Metrics, buildIndices in Hnew.
    apply buildIndices_from_array in Hnew. simpl in Hnew.
    unfold add, buildIndices in Hadd.
    apply buildIndices_from_array in Hadd. simpl in Hadd.
    rewrite Hadd, Hnew in Hm. by eapply list_elem_of_lookup_2.
Qed.

Lemma getByAddrPath_finds_address_and_path_witness :
  exists m, getByAddrPath "DB1,DW0" "0" sample_store_added = Ok (Some m)
            /\ m ∈ defaultMetrics (Js.Num (Js.Fin 1000)) 5 ++ [sample_metric]
            /\ key_of "address" m = Some "DB1,DW0"
            /\ key_of "path" m = Some "0".
Proof.
  refine (getByAddrPath_finds_address_and_path
            (defaultMetrics (Js.Num (Js.Fin 1000)) 5) [sample_metric]
            sample_store sample_store_added _ _ "DB1,DW0" "0" _).
  - vm_compute. reflexivity.
  - vm_compute. reflexivity.
  - eexists. exists 3. split; vm_compute; reflexivity.
Defined.

(** [setAlias] on a position of the array gives the metric the alias
    and files the position under it, so that [getByAlias] finds the
    metric; the names and every other alias stay as they were.  An alias
    given earlier to the same metric is not withdrawn: it still leads to
    the metric, which now carries the later alias.  On a position past
    the array [setAlias] throws. *)
Theorem setAlias_then_getByAlias (s : Metrics) (i : nat) (a : Z) :
  (forall m,
     array s !! i = Some m ->
     exists s',
       setAlias i a s = Ok s'
       /\ getByAlias a s' = Ok (Some (with_alias a m))
       /\ array s' = <[i := with_alias a m]> (array s)
       /\ nameIndex s' = nameIndex s
       /\ (forall b, b <> a -> aliasIndex s' !! b = aliasIndex s !! b)
       /\ forall b, b <> a ->
            exists s'',
              setAlias i b s' = Ok s''
              /\ getByAlias a s'' = Ok (Some (with_alias b m))
              /\ getByAlias b s'' = Ok (Some (with_alias b m)))
  /\ (array s !! i = None -> setAlias i a s = Throw Js.TypeError).
Proof.
  split.
  - intros m Hm. unfold setAlias.
    rewrite (assign_resolved i m) by done. rewrite Res_bind_Ok. simpl.
    assert (i < length (array s)) as Hlt by by eapply lookup_lt_Some.
    eexists. split; [reflexivity|]. split; [|split; [done|split; [done|split]]].
    + unfold getByAlias, at_index. simpl. rewrite lookup_insert_eq. simpl.
      by rewrite list_lookup_insert_eq.
    + intros b Hb. simpl. by rewrite lookup_insert_ne.
    + intros b Hb. unfold assign. simpl.
      rewrite list_lookup_insert_eq by done. rewrite Res_bind_Ok. simpl.
      eexists. split; [reflexivity|].
      unfold getByAlias, at_index. simpl.
      rewrite lookup_insert_eq, lookup_insert_ne, lookup_insert_eq by done.
      simpl. rewrite list_insert_insert_eq.
      by rewrite list_lookup_insert_eq.
  - intros Hm. unfold setAlias, assign. by rewrite Hm.
Qed.

Lemma setAlias_then_getByAlias_witness :
  exists s',
    setAlias 0 7 sample_store = Ok s'
    /\ getByAlias 7 s' = Ok (Some (with_alias 7 sample_polling)).
Proof.
  destruct (proj1 (setAlias_then_getByAlias sample_store 0 7) sample_polling)
    as (s' & Hset & Hget & _).
  - vm_compute. reflexivity.
  - by exists s'.
Defined.

Lemma put_lookup_key {V : Type} (k k' : string) (v : V) (o : gmap string V) :
  k' <> "__proto__" ->
  put k v o !! k' = if String.eqb k k' then Some v else o !! k'.
Proof.
  intros Hk'. unfold put.
  destruct (String.eqb_spec k k') as [<-|Hne].
  - destruct (o !! k); [by rewrite lookup_insert_eq|].
    destruct (String.eqb_spec k "__proto__"); [done|].
    by rewrite lookup_insert_eq.
  - destruct (o !! k); [by rewrite lookup_insert_ne|].
    destruct (String.eqb k "__proto__"); [done|by rewrite lookup_insert_ne].
Qed.

Lemma put_lookup_proto {V : Type} (k : string) (v : V) (o : gmap string V) :
  o !! "__proto__" = None -> put k v o !! "__proto__" = None.
Proof.
  intros Ho. unfold put.
  destruct (String.eqb_spec k "__proto__") as [->|Hne].
  - by rewrite Ho.
  - destruct (o !! k); by rewrite lookup_insert_ne.
Qed.

Lemma indexMetric_nameIndex (i : nat) (m : Metric) (s s' : Metrics) :
  indexMetric i m s = Ok s' ->
  nameIndex s' = put (index_name m) i (nameIndex s).
Proof.
  unfold indexMetric, index_name.
  destruct (properties m) as [props|]; [|by intros [= <-]].
  destruct (props !! "address") as [address|]; [|by intros [= <-]].
  destruct (props !! "path") as [path|]; [|by intros [= <-]].
  destruct (method_is_GET props) as [[|]|e]; simpl; [|by intros [= <-]|done].
  destruct (member (addrIndex s) _) as [l|k|]; simpl; [|done|];
    (destruct (member (addrPathIndex s) _) as [paths|k|]; simpl; [|done|]);
    by intros [= <-].
Qed.

Lemma buildIndices_from_nameIndex (k : string) (rest : list Metric) :
  forall (i : nat) (s s' : Metrics),
    buildIndices_from i rest s = Ok s' ->
    (k <> "__proto__" ->
     nameIndex s' !! k = last_named k i rest (nameIndex s !! k))
    /\ (nameIndex s !! "__proto__" = None ->
        nameIndex s' !! "__proto__" = None).
Proof.
  induction rest as [|m rest IH]; intros i s s'; simpl.
  - by intros [= <-].
  - destruct (indexMetric i m s) as [s1|e] eqn:Hstep; [|done].
    rewrite Res_bind_Ok. intros Hrest.
    destruct (IH _ _ _ Hrest) as [Hk Hproto].
    rewrite (indexMetric_nameIndex _ _ _ _ Hstep) in Hk, Hproto.
    split.
    + intros Hne. by rewrite Hk, put_lookup_key.
    + intros Hnone. by apply Hproto, put_lookup_proto.
Qed.

Lemma last_named_absent (k : string) (rest : list Metric) :
  k ∉ map index_name rest ->
  forall i found, last_named k i rest found = found.
Proof.
  induction rest as [|m rest IH]; intros Hk i found; simpl; [done|].
  simpl in Hk. apply not_elem_of_cons in Hk as [Hne Hk].
  rewrite IH by done.
  destruct (String.eqb_spec (index_name m) k); [by subst|done].
Qed.

Lemma last_named_unique (k : string) (rest : list Metric) :
  NoDup (map index_name rest) ->
  forall i j m found,
    rest !! j = Some m -> index_name m = k ->
    last_named k i rest found = Some (i + j).
Proof.
  induction rest as [|m0 rest IH]; intros Hnd i j m found Hj Hk; [done|].
  simpl in Hnd. apply NoDup_cons in Hnd as [Hnotin Hnd]. simpl.
  destruct j as [|j]; simpl in Hj.
  - injection Hj as ->. rewrite Hk, String.eqb_refl.
    rewrite last_named_absent by by rewrite <- Hk.
    by rewrite Nat.add_0_r.
  - destruct (String.eqb_spec (index_name m0) k) as [He|He].
    + destruct Hnotin. rewrite He, <- Hk.
      apply list_elem_of_fmap. exists m. split; [done|].
      by eapply list_elem_of_lookup_2.
    + rewrite (IH Hnd (S i) j m) by done. f_equal. lia.
Qed.

Lemma getByName_built (metricArr : list Metric) (s : Metrics) (k : string) :
  new_Metrics metricArr = Ok s -> k <> "__proto__" ->
  getByName k s = Ok (i ← last_named k 0 metricArr None; metricArr !! i).
Proof.
  intros Hnew Hk. unfold new_Metrics, buildIndices in Hnew.
  cbn [array] in Hnew.
  pose proof (buildIndices_from_array _ _ _ _ Hnew) as Harr. simpl in Harr.
  destruct (buildIndices_from_nameIndex k _ _ _ _ Hnew) as [Hidx _].
  specialize (Hidx Hk). simpl in Hidx. rewrite lookup_empty in Hidx.
  unfold getByName, at_index, member. rewrite Hidx, Harr.
  destruct (last_named k 0 metricArr None); [done|].
  by destruct (bool_decide _).
Qed.

(** In a store the constructor has built, [getByName] answers the last
    metric of the array that carries the name: an earlier metric of the
    same name cannot be reached by name.  When the names differ, every
    metric is found under its own.  No metric is found under
    [__proto__], a name the index cannot hold. *)
Theorem getByName_last_wins (metricArr : list Metric) (s : Metrics) :
  new_Metrics metricArr = Ok s ->
  (forall k, k <> "__proto__" ->
             getByName k s
             = Ok (i ← last_named k 0 metricArr None; metricArr !! i))
  /\ (NoDup (map index_name metricArr) ->
      forall i m, metricArr !! i = Some m -> index_name m <> "__proto__" ->
                  getByName (index_name m) s = Ok (Some m))
  /\ getByName "__proto__" s = Ok None.
Proof.
  intros Hnew.
  pose proof (fun k => getByName_built metricArr s k Hnew) as Hlast.
  unfold new_Metrics, buildIndices in Hnew. cbn [array] in Hnew.
  split; [exact Hlast|]. split.
  - intros Hnd i m Hi Hk. rewrite Hlast by done.
    rewrite (last_named_unique _ _ Hnd 0 i m None) by done. simpl.
    by rewrite Hi.
  - destruct (buildIndices_from_nameIndex "" _ _ _ _ Hnew) as [_ Hproto].
    unfold getByName, at_index, member. rewrite Hproto by done.
    by rewrite bool_decide_eq_true_2 by (vm_compute; set_solver).
Qed.

Lemma getByName_last_wins_witness :
  getByName "Device Control/Rebirth" sample_store
  = Ok (defaultMetrics (Js.Num (Js.Fin 1000)) 5 !! 2).
Proof.
  refine (eq_trans
            (proj1 (getByName_last_wins
                      (defaultMetrics (Js.Num (Js.Fin 1000)) 5) sample_store _)
               "Device Control/Rebirth" _) _).
  - vm_compute. reflexivity.
  - discriminate.
  - vm_compute. reflexivity.
Defined.

(** ** More on fixed-layout buffers *)

(** A uInt64 with PDP endianness is never read: the label of its case
    is spelled [uint64PDP], and the read answers [undefined] at every
    offset of every buffer, which it leaves alone.  A dateTime with PDP
    endianness shares the case and is read, as a BigInt. *)
Theorem parseValFromBuffer_uInt64_PDP_undefined `{BufferPrims}
    (byteAddr : nat) (buf : list byte) (bit : option nat) :
  parseValFromBuffer "uInt64" (Js.Num (Js.Fin PDPEndian)) byteAddr buf bit
  = Ok (Js.Undefined, buf)
  /\ parseValFromBuffer "dateTime" (Js.Num (Js.Fin PDPEndian)) byteAddr buf bit
     = read_swapped buf byteAddr 8 (fun v => big (readUIntBE 8 v 0)).
Proof. split; reflexivity. Qed.

(** Bit 0 of a byte cannot be read as a boolean: [if (bit)] takes the
    position 0 for a missing one and the read answers -1.  A position
    from 1 to 7 gives the bit of the byte at the offset, whatever the
    endianness. *)
Theorem parseValFromBuffer_boolean_bit `{BufferPrims}
    (endianness : Js.value) (byteAddr : nat) (buf : list byte) :
  parseValFromBuffer "boolean" endianness byteAddr buf (Some 0)
  = Ok (Js.Num (Js.Fin (-1)), buf)
  /\ parseValFromBuffer "boolean" endianness byteAddr buf None
     = Ok (Js.Num (Js.Fin (-1)), buf)
  /\ forall (b : nat) (x : byte),
       1 <= b <= 7 -> buf !! byteAddr = Some x ->
       parseValFromBuffer "boolean" endianness byteAddr buf (Some b)
       = Ok (Js.Bool (Z.testbit (byte_val x) (Z.of_nat b)), buf).
Proof.
  split; [reflexivity|]. split; [reflexivity|].
  intros b x Hb Hx. unfold parseValFromBuffer. cbn -[Z.testbit Nat.modulo].
  destruct b as [|b]; [lia|]. rewrite Hx. cbn -[Z.testbit Nat.modulo].
  by rewrite Nat.mod_small by lia.
Qed.

Lemma parseValFromBuffer_boolean_bit_witness :
  parseValFromBuffer (H := sample_prims) "boolean" Js.Null 1 [x00; x05]
    (Some 2)
  = Ok (Js.Bool true, [x00; x05]).
Proof.
  refine (eq_trans
            (proj2 (proj2 (parseValFromBuffer_boolean_bit (H := sample_prims)
                             Js.Null 1 [x00; x05])) 2 x05 _ _) _).
  - lia.
  - reflexivity.
  - reflexivity.
Defined.

(** A read with PDP endianness swaps the bytes of the buffer it is
    given: [swap16] works in place on the view.  Reading the same buffer
    a second time swaps them back, so the second read sees the bytes in
    their first order and answers the plain big-endian value, not the
    value of the first read. *)
Theorem parseValFromBuffer_PDP_read_twice `{BufferPrims}
    (a b c d : byte) (rest : list byte) (bit : option nat) :
  let buf := a :: b :: c :: d :: rest in
  let pdp := Js.Num (Js.Fin PDPEndian) in
  exists v1 buf1 v2,
    parseValFromBuffer "uInt32" pdp 0 buf bit = Ok (v1, buf1)
    /\ parseValFromBuffer "uInt32" pdp 0 buf1 bit = Ok (v2, buf)
    /\ parseValFromBuffer "uInt32" (Js.Num (Js.Fin bigEndian)) 0 buf bit
       = Ok (v2, buf)
    /\ buf1 = b :: a :: d :: c :: rest
    /\ (v1 = v2 <-> a = b /\ c = d).
Proof.
  intros buf pdp.
  assert (forall w x y z : byte,
            parseValFromBuffer "uInt32" pdp 0 (w :: x :: y :: z :: rest) bit
            = Ok (Js.Num (Js.Fin (be_uint [x; w; z; y])),
                  x :: w :: z :: y :: rest)) as Hpdp.
  { intros w x y z. unfold parseValFromBuffer.
    set (fullType := if bool_decide _ then _ else _).
    vm_compute in fullType. subst fullType.
    cbn -[be_uint]. unfold read_swapped, subarray, swap16, num, readUIntBE,
      bytes_at.
    cbn -[be_uint]. rewrite take_0. cbn -[be_uint].
    rewrite decide_True by lia. cbn -[be_uint]. by rewrite drop_0. }
  assert (parseValFromBuffer "uInt32" (Js.Num (Js.Fin bigEndian)) 0 buf bit
          = Ok (Js.Num (Js.Fin (be_uint [a; b; c; d])), buf)) as Hbe.
  { unfold parseValFromBuffer.
    set (fullType := if bool_decide _ then _ else _).
    vm_compute in fullType. subst fullType.
    cbn -[be_uint]. unfold unchanged, num, readUIntBE, bytes_at.
    cbn -[be_uint]. rewrite decide_True by lia. cbn -[be_uint].
    by rewrite take_0. }
  exists (Js.Num (Js.Fin (be_uint [b; a; d; c]))), (b :: a :: d :: c :: rest),
    (Js.Num (Js.Fin (be_uint [a; b; c; d]))).
  split; [apply Hpdp|]. split; [apply Hpdp|]. split; [exact Hbe|].
  split; [done|].
  assert (forall x : byte, (0 <= byte_val x < 256)%Z) as Hbyte.
  { intros x. unfold byte_val. pose proof (Byte.to_N_bounded x). lia. }
  assert (forall x y : byte, byte_val x = byte_val y -> x = y) as Hinj.
  { intros x y Hxy. unfold byte_val in Hxy. apply N2Z.inj in Hxy.
    assert (Some x = Some y) as Hs
      by (rewrite <- (Byte.of_to_N x), <- (Byte.of_to_N y); by rewrite Hxy).
    by injection Hs. }
  split.
  - intros [= Heq]. unfold be_uint in Heq. simpl in Heq.
    pose proof (Hbyte a). pose proof (Hbyte b). pose proof (Hbyte c).
    pose proof (Hbyte d).
    assert (byte_val a = byte_val b /\ byte_val c = byte_val d) as [Hab Hcd]
      by lia.
    split; by apply Hinj.
  - by intros [-> ->].
Qed.

(** What the rehasher and the buffer reader come to together.  The
    metric [rehashTag] makes of a tag has its type stripped of the
    suffix and a null endianness, so the reader looks for a case named
    by the bare type: of the types of [sparkplugDataType], declared
    bare or with a BE or LE suffix, only boolean, int8, uInt8 and uuid
    are read from a fixed buffer; for every other the read answers
    [undefined], whatever the buffer holds. *)
Theorem rehashed_tag_reads_undefined `{BufferPrims}
    (tag : Tag) (byteAddr : nat) (buf : list byte) (bit : option nat) :
  Forall (fun base =>
            Forall (fun suffix =>
                      let m := rehashTag (with_tag_type (base +:+ suffix) tag) in
                      base ∈ ["boolean"; "int8"; "uInt8"; "uuid"]
                      \/ parseValFromBuffer (type m) (fixedBuffer_endianness m)
                           byteAddr buf bit
                         = Ok (Js.Undefined, buf))
                   [""; "BE"; "LE"])
         sparkplugDataTypes.
Proof.
  unfold sparkplugDataTypes.
  repeat (apply Forall_cons; split); try apply Forall_nil; try exact I;
    cbv zeta;
    first [ right; vm_compute; reflexivity
          | left; apply (bool_decide_unpack _); vm_compute; exact I ].
Qed.

(** ** More on the Device *)

Lemma indexMetric_unfiled (i : nat) (m : Metric) (s s' : Metrics) :
  (forall addr, holds_address addr m = false) ->
  indexMetric i m s = Ok s' ->
  addrIndex s' = addrIndex s /\ addrPathIndex s' = addrPathIndex s.
Proof.
  intros Hm. unfold indexMetric.
  destruct (properties m) as [props|] eqn:Hprops; [|by intros [= <-]].
  destruct (props !! "address") as [address|] eqn:Haddress;
    [|by intros [= <-]].
  destruct (props !! "path") as [path|] eqn:Hpath; [|by intros [= <-]].
  destruct (method_is_GET props) as [[|]|e] eqn:Hget; simpl;
    [|by intros [= <-]|done].
  specialize (Hm (Js.to_key (pvalue address))). unfold holds_address in Hm.
  by rewrite Hprops, Haddress, Hpath, Hget, String.eqb_refl in Hm.
Qed.

Lemma buildIndices_from_unfiled (rest : list Metric) :
  (forall m addr, m ∈ rest -> holds_address addr m = false) ->
  forall i s s',
    buildIndices_from i rest s = Ok s' ->
    addrIndex s' = addrIndex s /\ addrPathIndex s' = addrPathIndex s.
Proof.
  induction rest as [|m rest IH]; intros Hrest i s s'; simpl.
  - by intros [= <-].
  - destruct (indexMetric i m s) as [s1|e] eqn:Hstep; [|done].
    rewrite Res_bind_Ok. intros Hbuild.
    destruct (indexMetric_unfiled i m s s1) as [<- <-];
      [intros addr; apply Hrest; constructor|done|].
    apply (IH (fun m' addr Hin => Hrest m' addr (list_elem_of_further _ _ _ Hin))
             _ _ _ Hbuild).
Qed.

Lemma defaultMetrics_unfiled (pollInt : Js.value) (now : Z) (m : Metric)
    (addr : string) :
  m ∈ defaultMetrics pollInt now -> holds_address addr m = false.
Proof.
  intros Hm.
  repeat (apply elem_of_cons in Hm as [->|Hm]; [reflexivity|]).
  by apply elem_of_nil in Hm.
Qed.

(** The constructor never throws: the three default metrics have no GET
    method, so the loop of [#buildIndices] files none of them under an
    address.  The Device starts neither alive nor connected, with its
    ready timer armed, nothing published and nothing pending, and its
    store holds the default metrics, the polling interval of the options
    under its name. *)
Theorem new_Device_constructs `{BufferPrims}
    (options : Options) (file : option Conf) (now : Z) :
  exists d,
    new_Device options file now = Ok d
    /\ array (_metrics d) = defaultMetrics (opt_pollInt options) now
    /\ addresses (_metrics d) = []
    /\ isAlive d = false /\ _isConnected d = false /\ readyInterval d = true
    /\ effects d = [] /\ birthsPending d = 0 /\ writesPending d = []
    /\ configReadsPending d = []
    /\ (exists m,
          getByName "Device Control/Polling Interval" (_metrics d) = Ok (Some m)
          /\ value m = opt_pollInt options)
    /\ index_sound (_metrics d).
Proof.
  destruct (new_Metrics (defaultMetrics (opt_pollInt options) now))
    as [s|e] eqn:Hnew; [|vm_compute in Hnew; discriminate].
  exists (mkDevice (opt_deviceId options) s false false
            (opt_payloadFormat options) (default "" (opt_delimiter options))
            true 0 [] [] file now []).
  split; [unfold new_Device; by rewrite Hnew|].
  pose proof (new_Metrics_sound _ _ Hnew) as Hsound.
  pose proof (getByName_built _ _ "Device Control/Polling Interval" Hnew)
    as Hget.
  unfold new_Metrics, buildIndices in Hnew. cbn [array] in Hnew.
  pose proof (buildIndices_from_array _ _ _ _ Hnew) as Harr.
  destruct (buildIndices_from_unfiled _
              (fun m addr => defaultMetrics_unfiled _ _ m addr) _ _ _ Hnew)
    as [_ Hpaths].
  split; [exact Harr|]. split.
  { unfold addresses, keys. cbn [_metrics]. rewrite Hpaths. reflexivity. }
  do 7 (split; [reflexivity|]). split; [|exact Hsound].
  eexists. split; [apply Hget; discriminate|]. reflexivity.
Qed.

(** A Device never becomes alive, nor awaits the acknowledgement of a
    BIRTH, without having published a BIRTH: in every run of a Device
    from its construction, whatever the events and their order. *)
Theorem alive_device_has_published_birth `{BufferPrims}
    (parseValue : Js.value -> Metric -> string -> string -> Res Js.value)
    (parseTimeStamp : Js.value -> Metric -> string -> string -> Js.value)
    (options : Options) (file : option Conf) (now : Z) (d0 : Device)
    (events : list (Z * Event)) :
  new_S7Device options file now = Ok d0 ->
  let d := run parseValue parseTimeStamp d0 events in
  isAlive d = true \/ birthsPending d <> 0 ->
  exists b, DBIRTH b ∈ frames d.
Proof.
  intros Hnew d Hd.
  assert (lifecycle_inv d0) as Hinv.
  { unfold new_S7Device, new_Device in Hnew.
    destruct (new_Metrics _) as [s|e]; [|done]. rewrite Res_bind_Ok in Hnew.
    simpl in Hnew. destruct (add _ s) as [s'|e]; [|done].
    rewrite Res_bind_Ok in Hnew. destruct (s7Vars _) as [vars|e]; [|done].
    injection Hnew as <-. split; [done|]. simpl. intros [?|?]; done. }
  destruct (lifecycle_inv_run parseValue parseTimeStamp events d0 Hinv)
    as [_ Hb].
  specialize (Hb Hd). apply existsb_exists in Hb as ([b|ms|] & Hin & Hb);
    try done.
  exists b. by apply list_elem_of_In.
Qed.

Lemma alive_device_has_published_birth_witness :
  exists b,
    DBIRTH b
    ∈ frames (run (H := sample_prims) sample_parseValue sample_parseTimeStamp
                sample_device [(6%Z, DriverOpen); (7%Z, BirthPublished)]).
Proof.
  refine (alive_device_has_published_birth (H := sample_prims)
            sample_parseValue sample_parseTimeStamp sample_options
            (Some sample_conf) 5 sample_device
            [(6%Z, DriverOpen); (7%Z, BirthPublished)] _ _).
  - vm_compute. reflexivity.
  - left. vm_compute. reflexivity.
Defined.

(** [setDeviceKey] rewrites one entry at most: the first that carries
    the name gets the key, every entry before and after it is left as it
    was, also a later entry of the same name; a connection without the
    name is left as it is. *)
Theorem setDeviceKey_first_entry_only (n key : string) (v : Js.value) :
  (forall pre dev post,
     (forall e, e ∈ pre -> deviceId e <> n) -> deviceId dev = n ->
     setDeviceKey n key v (pre ++ dev :: post)
     = pre ++ mkDeviceEntry n (<[key := v]> (settings dev)) :: post)
  /\ (forall devices,
        (forall e, e ∈ devices -> deviceId e <> n) ->
        setDeviceKey n key v devices = devices)
  /\ (forall devices,
        map deviceId (setDeviceKey n key v devices) = map deviceId devices).
Proof.
  assert (forall devices,
            (forall e, e ∈ devices -> deviceId e <> n) ->
            forall rest, setDeviceKey n key v (devices ++ rest)
                         = devices ++ setDeviceKey n key v rest) as Hpre.
  { induction devices as [|e devices IH]; intros Hne rest; simpl; [done|].
    destruct (String.eqb_spec (deviceId e) n) as [He|He].
    - destruct (Hne e); [constructor|done].
    - rewrite IH; [done|]. intros e' He'. apply Hne. by constructor. }
  split; [|split].
  - intros pre dev post Hne Hdev. rewrite Hpre by done. simpl.
    by rewrite Hdev, String.eqb_refl.
  - intros devices Hne.
    rewrite <- (app_nil_r devices) at 1. rewrite Hpre by done. simpl.
    by rewrite app_nil_r.
  - induction devices as [|e devices IH]; simpl; [done|].
    destruct (String.eqb_spec (deviceId e) n); simpl; [done|].
    by rewrite IH.
Qed.

Lemma setDeviceKey_first_entry_only_witness :
  setDeviceKey "plc1" "pollInt" (Js.Num (Js.Fin 2500))
    ([mkDeviceEntry "plc0" {[ "pollInt" := Js.Num (Js.Fin 500) ]}]
     ++ mkDeviceEntry "plc1" {[ "pollInt" := Js.Num (Js.Fin 1000) ]}
        :: [mkDeviceEntry "plc1" ∅])
  = [mkDeviceEntry "plc0" {[ "pollInt" := Js.Num (Js.Fin 500) ]}]
    ++ mkDeviceEntry "plc1"
         (<["pollInt" := Js.Num (Js.Fin 2500)]>
            {[ "pollInt" := Js.Num (Js.Fin 1000) ]})
       :: [mkDeviceEntry "plc1" ∅].
Proof.
  refine (proj1 (setDeviceKey_first_entry_only "plc1" "pollInt"
                   (Js.Num (Js.Fin 2500))) _ _ _ _ _).
  - intros e He. apply list_elem_of_singleton in He as ->. discriminate.
  - reflexivity.
Defined.

(** When the configuration file cannot be read, the callback of
    [#updateConfig] logs the error and then throws: it goes on to parse
    data it does not have.  The file is not rewritten and the new value
    is not persisted. *)
Theorem config_read_error_throws `{BufferPrims}
    (parseValue : Js.value -> Metric -> string -> string -> Res Js.value)
    (parseTimeStamp : Js.value -> Metric -> string -> string -> Js.value)
    (d : Device) (key : string) (value : Js.value)
    (rest : list (string * Js.value)) :
  confFile d = None -> configReadsPending d = (key, value) :: rest ->
  exists d',
    handle parseValue parseTimeStamp ConfigFileRead d = Raise Js.TypeError d'
    /\ effects d' = effects d ++ [Log LogError]
    /\ confFile d' = None
    /\ configReadsPending d' = rest.
Proof.
  intros Hfile Hpending. simpl. rewrite M_bind_unfold. simpl.
  rewrite Hpending. unfold configRead, log, emit, modify, gets. exec.
  rewrite Hfile. exec. eexists. split; [reflexivity|]. done.
Qed.

Lemma config_read_error_throws_witness :
  exists d',
    handle (H := sample_prims) sample_parseValue sample_parseTimeStamp
      ConfigFileRead
      (set_configReadsPending [("pollInt", Js.Num (Js.Fin 2500))]
         (set_confFile None sample_alive))
    = Raise Js.TypeError d'
    /\ effects d' = effects sample_alive ++ [Log LogError]
    /\ confFile d' = None
    /\ configReadsPending d' = [].
Proof.
  refine (config_read_error_throws (H := sample_prims) sample_parseValue
            sample_parseTimeStamp
            (set_configReadsPending [("pollInt", Js.Num (Js.Fin 2500))]
               (set_confFile None sample_alive))
            "pollInt" (Js.Num (Js.Fin 2500)) [] _ _); reflexivity.
Defined.

(** A DCMD for [Device Control/Rebirth] or [Device Control/Reboot],
    named or known by its alias, is logged and acts only on a truthy
    value: a rebirth is logged and goes through [_publishDBirth], which
    sends a BIRTH with the metrics of the store when the Device is
    connected and writes a log line when it is not; a reboot only logs
    that it is not implemented.  Neither queues a write, touches the
    store or changes whether the Device is alive. *)
Theorem rebirth_and_reboot_commands `{BufferPrims}
    (d : Device) (queued : list Metric) (pm rm : Metric) :
  stands_for (_metrics d) pm rm ->
  (name rm = Some "Device Control/Rebirth" ->
   exists d',
     handleDCmdMetric queued pm d = Return queued d'
     /\ _metrics d' = _metrics d /\ isAlive d' = isAlive d
     /\ effects d'
        = effects d
          ++ Log (LogDCmd (name rm) (value pm))
             :: (if Js.truthy (value pm)
                 then [ Log (LogRebirthRequested (_name d));
                        if _isConnected d
                        then Publish (DBIRTH (array (_metrics d)))
                        else Log LogBirthNotConnected ]
                 else []))
  /\ (name rm = Some "Device Control/Reboot" ->
      handleDCmdMetric queued pm d
      = Return queued
          (set_effects
             (effects d
              ++ Log (LogDCmd (name rm) (value pm))
                 :: (if Js.truthy (value pm)
                     then [Log LogRebootNotImplemented] else []))
             d)).
Proof.
  intros Hstands.
  assert (value rm = value pm) as Hv.
  { destruct Hstands as [[_ ->]|(_ & a & found & _ & _ & ->)]; done. }
  split; intros Hname.
  - resolve_command Hstands; simpl in Hname, Hv;
      unfold _publishDBirth, readMetricsOnce, log, emit, modify, gets;
      exec; rewrite Hname;
      cbn -[setValueByName getByName on_metrics from_metrics app new_Metrics];
      (destruct (Js.truthy (value pm)); exec;
       [destruct (_isConnected d) eqn:Hconn; exec|]);
      (eexists; split; [reflexivity|]);
      (split; [reflexivity|]); (split; [reflexivity|]);
      simpl; by rewrite <- ?app_assoc.
  - resolve_command Hstands; simpl in Hname, Hv;
      unfold reboot, log, emit, modify, gets;
      exec; rewrite Hname;
      cbn -[setValueByName getByName on_metrics from_metrics app new_Metrics];
      destruct (Js.truthy (value pm)); exec;
      rewrite <- ?app_assoc; reflexivity.
Qed.

Lemma rebirth_and_reboot_commands_witness :
  exists d',
    handleDCmdMetric (H := sample_prims) []
      (mkMetric (Some "Device Control/Rebirth") None "boolean" (Js.Bool true)
         Js.Undefined None None None) sample_alive
    = Return [] d'
    /\ frames d'
       = frames sample_alive ++ [DBIRTH (array (_metrics sample_alive))].
Proof.
  destruct (proj1 (rebirth_and_reboot_commands (H := sample_prims) sample_alive
                     []
                     (mkMetric (Some "Device Control/Rebirth") None "boolean"
                        (Js.Bool true) Js.Undefined None None None)
                     (mkMetric (Some "Device Control/Rebirth") None "boolean"
                        (Js.Bool true) Js.Undefined None None None)
                     (or_introl (conj eq_refl eq_refl))) eq_refl)
    as (d' & Hrun & _ & _ & Heff).
  exists d'. split; [exact Hrun|]. unfold frames. rewrite Heff, omap_app.
  reflexivity.
Defined.

(** When the driver reports that a write went through, the written
    value is put in the store under the name of the metric, with the
    current time, and the metric of the store goes to [_publishDData]: a
    DATA frame when the Device is alive; the write is logged and the
    watchdog refreshed.  When the driver reports an error, only the
    error is logged: the store keeps the old value and nothing is
    published. *)
Theorem write_callback_stores_and_publishes `{BufferPrims}
    (parseValue : Js.value -> Metric -> string -> string -> Res Js.value)
    (parseTimeStamp : Js.value -> Metric -> string -> string -> Js.value)
    (d : Device) (m old : Metric) (n : string) (i : nat)
    (rest : list (list Metric)) :
  writesPending d = [m] :: rest -> name m = Some n ->
  nameIndex (_metrics d) !! n = Some i -> array (_metrics d) !! i = Some old ->
  let m' := updated (value m) Js.Undefined (clock d) old in
  let s' := replaced i m' (_metrics d) in
  (exists d',
     handle parseValue parseTimeStamp (WriteDone false) d = Return tt d'
     /\ _metrics d' = s' /\ writesPending d' = rest
     /\ effects d'
        = effects d ++ published d s' [Some m']
          ++ [Log (LogMetricsWritten (_name d)); RefreshDeathTimer])
  /\ (exists d',
        handle parseValue parseTimeStamp (WriteDone true) d = Return tt d'
        /\ _metrics d' = _metrics d /\ writesPending d' = rest
        /\ effects d' = effects d ++ [Log LogError]).
Proof.
  intros Hpending Hname Hidx Hold m' s'. split.
  - simpl. rewrite M_bind_unfold. simpl. rewrite Hpending.
    unfold writeCallback, written, _publishDData, _publishDBirth,
      readMetricsOnce, _refreshDeathTimer, log, emit, modify, gets.
    exec. rewrite Hname. exec.
    erewrite on_metrics_ok
      by (apply (setValueByName_resolved _ _ i old); simpl; eassumption).
    exec.
    erewrite from_metrics_ok
      by (simpl; apply (getByName_replaced _ _ i old); eassumption).
    exec. unfold published.
    destruct (isAlive d) eqn:Halive; [|destruct (_isConnected d) eqn:Hconn];
      exec; rewrite ?Hconn; exec;
      (eexists; split; [reflexivity|]);
      (split; [reflexivity|]); (split; [reflexivity|]);
      simpl; by rewrite <- ?app_assoc.
  - simpl. rewrite M_bind_unfold. simpl. rewrite Hpending.
    unfold writeCallback, log, emit, modify. exec.
    eexists. split; [reflexivity|]. done.
Qed.

Lemma write_callback_stores_and_publishes_witness :
  exists d',
    handle (H := sample_prims) sample_parseValue sample_parseTimeStamp
      (WriteDone false) (set_clock 9 sample_load_queued) = Return tt d'
    /\ frames d'
       = frames sample_load_queued
         ++ [DDATA [Some (updated (Js.Num (Js.Fin 80)) Js.Undefined 9
                            sample_metric_raw)]].
Proof.
  destruct (proj1 (write_callback_stores_and_publishes (H := sample_prims)
                     sample_parseValue sample_parseTimeStamp
                     (set_clock 9 sample_load_queued) sample_load_written
                     sample_metric_raw "Spindle/Load" 4 [] eq_refl eq_refl
                     eq_refl eq_refl))
    as (d' & Hrun & _ & _ & Heff).
  exists d'. split; [exact Hrun|]. unfold frames. rewrite Heff, !omap_app.
  reflexivity.
Defined.



Section NotAlive.

Context (parseValue : Js.value -> Metric -> string -> string -> Res Js.value).
Context (parseTimeStamp : Js.value -> Metric -> string -> string -> Js.value).
Context (obj : gmap string Js.value) (parseVals : bool).

(** A payload none of whose values is accepted only refreshes the
    watchdog, on any Device. *)
Lemma handleData_settled (d : Device) :
  (forall a p, (a, p) ∈ visited obj (_metrics d) ->
               path_verdict parseValue obj parseVals (_payloadFormat d)
                 (_delimiter d) (_metrics d) a p = Ok None) ->
  _handleData parseValue parseTimeStamp obj parseVals d
  = Return tt (set_effects (effects d ++ [RefreshDeathTimer]) d).
Proof.
  intros Hall. unfold _handleData.
  rewrite M_bind_unfold, addrs_flat.
  rewrite (pass_settled parseValue parseTimeStamp obj parseVals)
    by (intros a p Hap; apply Hall, Hap).
  reflexivity.
Qed.

(** Values that arrive while the Device is not alive are written to the
    store all the same, but no DATA frame carries them: when some value
    is accepted, a connected Device sends a BIRTH, which shows the store
    with the new values in it, and a Device that is not connected only
    writes a log line.  The Device does not become alive by that.  The
    same payload handed in again is filtered against the stored values
    and publishes nothing, so a value taken while the Device was not
    connected is never published for as long as it does not change. *)
Theorem data_while_not_alive (d d1 : Device) :
  (parseVals = true -> decoder_settles parseValue) ->
  index_sound (_metrics d) -> isAlive d = false ->
  _handleData parseValue parseTimeStamp obj parseVals d = Return tt d1 ->
  exists changed : list (option Metric),
    effects d1
    = effects d
      ++ match changed with
         | [] => []
         | _ :: _ =>
             if _isConnected d
             then [Publish (DBIRTH (array (_metrics d1)))]
             else [Log LogBirthNotConnected]
         end ++ [RefreshDeathTimer]
    /\ (changed = []
        <-> forall addr path,
              (addr, path) ∈ visited obj (_metrics d) ->
              path_verdict parseValue obj parseVals (_payloadFormat d)
                (_delimiter d) (_metrics d) addr path = Ok None)
    /\ isAlive d1 = false
    /\ forall t,
         _handleData parseValue parseTimeStamp obj parseVals (set_clock t d1)
         = Return tt
             (set_effects (effects d1 ++ [RefreshDeathTimer]) (set_clock t d1)).
Proof.
  intros Hsettles Hsound Halive Hrun. unfold _handleData in Hrun.
  rewrite M_bind_unfold, addrs_flat in Hrun.
  fold (visited obj (_metrics d)) in Hrun.
  destruct (run_items parseValue parseTimeStamp obj parseVals _ [] d)
    as [changed dm|e dm] eqn:Hpass; [|done].
  assert (forall a p, (a, p) ∈ visited obj (_metrics d) ->
                      held (_metrics d) a p) as Hheld
    by (intros a p Hin; by apply elem_of_visited in Hin as [_ Hin]).
  destruct (pass_settles parseValue parseTimeStamp obj parseVals _ Hsettles
              (NoDup_visited obj (_metrics d)) _ _ _ _ Hsound Hheld Hpass)
    as (_ & [arr ->] & Hin & _ & extra & Hch & Hextra).
  simpl in Hch. subst extra.
  set (dm := set_metrics _ d) in *.
  assert (forall d2,
            _metrics d2 = _metrics dm -> _payloadFormat d2 = _payloadFormat dm ->
            _delimiter d2 = _delimiter dm ->
            _handleData parseValue parseTimeStamp obj parseVals d2
            = Return tt (set_effects (effects d2 ++ [RefreshDeathTimer]) d2))
    as Hagain.
  { intros d2 Hm Hf Hd. apply handleData_settled. rewrite Hm, Hf, Hd.
    intros a p Hap. apply Hin. exact Hap. }
  destruct changed as [|c changed].
  - unfold _refreshDeathTimer, emit, modify in Hrun. revert Hrun. exec.
    intros [= <-].
    exists []. split; [done|]. split; [done|]. split; [done|].
    intros t. by rewrite Hagain.
  - unfold _publishDData, _publishDBirth, readMetricsOnce, _refreshDeathTimer,
      log, emit, modify, gets in Hrun.
    revert Hrun. exec. rewrite Halive. exec.
    destruct (_isConnected d) eqn:Hconn; exec; intros [= <-];
      exists (c :: changed);
      (split; [simpl; by rewrite <- ?app_assoc|]);
      (split; [done|]); (split; [done|]);
      intros t; by rewrite Hagain.
Qed.

End NotAlive.

Lemma data_while_not_alive_witness :
  exists changed : list (option Metric),
    effects sample_connected_data
    = effects (set_clock 8 sample_json_connected)
      ++ match changed with
         | [] => []
         | _ :: _ => [Publish (DBIRTH (array (_metrics sample_connected_data)))]
         end ++ [RefreshDeathTimer]
    /\ changed <> [].
Proof.
  destruct (data_while_not_alive sample_parseValue sample_parseTimeStamp
              sample_payload true (set_clock 8 sample_json_connected)
              sample_connected_data)
    as (changed & Heff & Hnone & _).
  - intros _. exact sample_parseValue_settles.
  - exact (new_S7Device_sound _ _ _ _ sample_json_device_built).
  - reflexivity.
  - vm_compute. reflexivity.
  - exists changed. split; [exact Heff|].
    intros Hch. pose proof (proj1 Hnone Hch "spindle/speed" "$") as Hv.
    assert (("spindle/speed", "$")
              ∈ visited sample_payload
                  (_metrics (set_clock 8 sample_json_connected)))
      as Hin.
    { apply elem_of_visited. split; [by eexists|].
      eexists. exists 3. split; vm_compute; reflexivity. }
    specialize (Hv Hin). vm_compute in Hv. discriminate.
Defined.
